(** * Romaji matching engines of the typing game

    Shallow embedding of [src/typing-game/src/game/RomajiCore.ts] (class
    [RomajiCore]) and of the [InputHandler] class (with its tables
    [KANA_ROMAJI_MAP] and [COMBO_MAP]), followed by the properties of the
    keystroke matcher.

    A JavaScript string is a sequence of UTF-16 code units; [s.length],
    [s[i]], [substring], [slice] and [startsWith] all count code units.
    We therefore model a string as [list N].  Every kana of the tables is in
    the Basic Multilingual Plane, hence one code unit. *)

From Stdlib Require Import String Ascii.
From Stdlib Require Import List NArith Arith Bool Lia.
Import ListNotations.

(** ** JavaScript strings *)

Module JS.

Definition jsstring := list N.

Local Open Scope N_scope.

(** Decoding of a source literal: the literals of this file are written as
    in the TypeScript source, Rocq reads them as UTF-8 bytes, and [utf16]
    turns the bytes into the UTF-16 code units the JavaScript engine sees. *)

Definition cont (b : N) : N := N.land b 63.

Definition surrogates (cp : N) : list N :=
  if cp <? 65536 then [cp]
  else let v := cp - 65536 in
       [55296 + N.shiftr v 10; 56320 + N.land v 1023].

Fixpoint decode (bs : list N) : list N :=
  match bs with
  | [] => []
  | b0 :: r0 =>
    if b0 <? 128 then b0 :: decode r0
    else match r0 with
    | [] => [65533]
    | b1 :: r1 =>
      if b0 <? 224 then
        (N.shiftl (N.land b0 31) 6 + cont b1) :: decode r1
      else match r1 with
      | [] => [65533]
      | b2 :: r2 =>
        if b0 <? 240 then
          (N.shiftl (N.land b0 15) 12 + N.shiftl (cont b1) 6 + cont b2)
            :: decode r2
        else match r2 with
        | [] => [65533]
        | b3 :: r3 =>
          surrogates (N.shiftl (N.land b0 7) 18 + N.shiftl (cont b1) 12
                      + N.shiftl (cont b2) 6 + cont b3) ++ decode r3
        end
      end
    end
  end.

Definition utf16 (s : string) : jsstring :=
  decode (map N_of_ascii (list_ascii_of_string s)).

(** [a === b] on strings. *)
Fixpoint streq (a b : jsstring) : bool :=
  match a, b with
  | [], [] => true
  | x :: a', y :: b' => (x =? y) && streq a' b'
  | _, _ => false
  end.

(** [s.startsWith(p)]. *)
Fixpoint startsWith (s p : jsstring) {struct p} : bool :=
  match p with
  | [] => true
  | y :: p' =>
    match s with
    | [] => false
    | x :: s' => (x =? y) && startsWith s' p'
    end
  end.

(** [xs.includes(v)] for an array of strings. *)
Definition includes (xs : list jsstring) (v : jsstring) : bool :=
  existsb (fun x => streq x v) xs.

(** The string [String(undefined)], which JavaScript substitutes when
    [undefined] is concatenated to a string or used as a property key. *)
Definition undefined_str : jsstring := utf16 "undefined".

(** An object literal used as a dictionary from strings to arrays of
    strings, in source order.  [get o k] is [o[k]]: a later entry with the
    same key overrides an earlier one; [None] is [undefined].  The names on
    [Object.prototype] ([constructor], [toString], [valueOf], ...) have seven
    code units or more and none is [undefined], while this program only looks
    up keys of one or two code units and the key [undefined], so a lookup
    never reaches the prototype. *)
Definition object := list (jsstring * list jsstring).

Definition get (o : object) (k : jsstring) : option (list jsstring) :=
  fold_left (fun acc kv => if streq (fst kv) k then Some (snd kv) else acc)
            o None.

(** An entry of an object literal, written as in the source. *)
Definition e (k : string) (vs : list string) : jsstring * list jsstring :=
  (utf16 k, map utf16 vs).

(** [s[i]]: the string of the single code unit at [i], or [undefined]. *)
Definition at_ (s : jsstring) (i : nat) : option jsstring :=
  match nth_error s i with
  | Some c => Some [c]
  | None => None
  end.

(** Conversion to string of a value that is a string or [undefined]. *)
Definition str (v : option jsstring) : jsstring :=
  match v with
  | Some s => s
  | None => undefined_str
  end.

End JS.

Import JS.

Example utf16_hiragana_a : utf16 "あ" = [12354%N].
Proof. reflexivity. Qed.

Example utf16_ascii : utf16 "shi" = [115; 104; 105]%N.
Proof. reflexivity. Qed.

Example utf16_two : utf16 "きゃ" = [12365; 12419]%N.
Proof. reflexivity. Qed.

(** ** The romanization tables *)

Module Tables.

Local Open Scope string_scope.

(** [ROMAJI_TABLE] of RomajiCore.ts. *)
Definition ROMAJI_TABLE : object :=
  [
    e "あ" ["a"]; e "い" ["i"; "yi"]; e "う" ["u"; "wu"; "whu"]; e "え" ["e"]; e "お" ["o"];
    e "か" ["ka"; "ca"]; e "き" ["ki"]; e "く" ["ku"; "cu"; "qu"]; e "け" ["ke"]; e "こ" ["ko"; "co"];
    e "さ" ["sa"]; e "し" ["shi"; "si"; "ci"]; e "す" ["su"]; e "せ" ["se"; "ce"]; e "そ" ["so"];
    e "た" ["ta"]; e "ち" ["chi"; "ti"]; e "つ" ["tsu"; "tu"]; e "て" ["te"]; e "と" ["to"];
    e "な" ["na"]; e "に" ["ni"]; e "ぬ" ["nu"]; e "ね" ["ne"]; e "の" ["no"];
    e "は" ["ha"]; e "ひ" ["hi"]; e "ふ" ["fu"; "hu"]; e "へ" ["he"]; e "ほ" ["ho"];
    e "ま" ["ma"]; e "み" ["mi"]; e "む" ["mu"]; e "め" ["me"]; e "も" ["mo"];
    e "や" ["ya"]; e "ゆ" ["yu"]; e "よ" ["yo"];
    e "ら" ["ra"]; e "り" ["ri"]; e "る" ["ru"]; e "れ" ["re"]; e "ろ" ["ro"];
    e "わ" ["wa"]; e "を" ["wo"]; e "ん" ["n"; "nn"; "n'"];
    e "が" ["ga"]; e "ぎ" ["gi"]; e "ぐ" ["gu"]; e "げ" ["ge"]; e "ご" ["go"];
    e "ざ" ["za"]; e "じ" ["ji"; "zi"]; e "ず" ["zu"]; e "ぜ" ["ze"]; e "ぞ" ["zo"];
    e "だ" ["da"]; e "ぢ" ["ji"; "di"]; e "づ" ["zu"; "du"]; e "で" ["de"]; e "ど" ["do"];
    e "ば" ["ba"]; e "び" ["bi"]; e "ぶ" ["bu"]; e "べ" ["be"]; e "ぼ" ["bo"];
    e "ぱ" ["pa"]; e "ぴ" ["pi"]; e "ぷ" ["pu"]; e "ぺ" ["pe"]; e "ぽ" ["po"];
    e "ぁ" ["la"; "xa"]; e "ぃ" ["li"; "xi"]; e "ぅ" ["lu"; "xu"]; e "ぇ" ["le"; "xe"]; e "ぉ" ["lo"; "xo"];
    e "ゃ" ["lya"; "xya"]; e "ゅ" ["lyu"; "xyu"]; e "ょ" ["lyo"; "xyo"];
    e "っ" ["ltu"; "xtu"; "ltsu"];
    e "ー" ["-"];
    e "きゃ" ["kya"]; e "きゅ" ["kyu"]; e "きょ" ["kyo"];
    e "しゃ" ["sha"; "sya"]; e "しゅ" ["shu"; "syu"]; e "しょ" ["sho"; "syo"];
    e "ちゃ" ["cha"; "cya"; "tya"]; e "ちゅ" ["chu"; "cyu"; "tyu"]; e "ちょ" ["cho"; "cyo"; "tyo"];
    e "にゃ" ["nya"]; e "にゅ" ["nyu"]; e "にょ" ["nyo"];
    e "ひゃ" ["hya"]; e "ひゅ" ["hyu"]; e "ひょ" ["hyo"];
    e "みゃ" ["mya"]; e "みゅ" ["myu"]; e "みょ" ["myo"];
    e "りゃ" ["rya"]; e "りゅ" ["ryu"]; e "りょ" ["ryo"];
    e "ぎゃ" ["gya"]; e "ぎゅ" ["gyu"]; e "ぎょ" ["gyo"];
    e "じゃ" ["ja"; "jya"; "zya"]; e "じゅ" ["ju"; "jyu"; "zyu"]; e "じょ" ["jo"; "jyo"; "zyo"];
    e "びゃ" ["bya"]; e "びゅ" ["byu"]; e "びょ" ["byo"];
    e "ぴゃ" ["pya"]; e "ぴゅ" ["pyu"]; e "ぴょ" ["pyo"];
    e "ふぁ" ["fa"]; e "ふぃ" ["fi"]; e "ふぇ" ["fe"]; e "ふぉ" ["fo"];
    e "ゔ" ["vu"];
    e "うぃ" ["wi"]; e "うぇ" ["we"];
    e "ヴ" ["vu"];
    e "、" [","]; e "。" ["."]
  ].

(** [KANA_ROMAJI_MAP] of the input handler (the key of [ru] is the two
    letters, as in the source). *)
Definition KANA_ROMAJI_MAP : object :=
  [
    e "あ" ["a"]; e "い" ["i"]; e "う" ["u"]; e "え" ["e"]; e "お" ["o"];
    e "か" ["ka"; "ca"]; e "き" ["ki"]; e "く" ["ku"; "cu"; "qu"]; e "け" ["ke"]; e "こ" ["ko"; "co"];
    e "さ" ["sa"]; e "し" ["shi"; "si"; "ci"]; e "す" ["su"]; e "せ" ["se"; "ce"]; e "そ" ["so"];
    e "た" ["ta"]; e "ち" ["chi"; "ti"]; e "つ" ["tsu"; "tu"]; e "て" ["te"]; e "と" ["to"];
    e "な" ["na"]; e "に" ["ni"]; e "ぬ" ["nu"]; e "ね" ["ne"]; e "の" ["no"];
    e "は" ["ha"]; e "ひ" ["hi"]; e "ふ" ["fu"; "hu"]; e "へ" ["he"]; e "ほ" ["ho"];
    e "ま" ["ma"]; e "み" ["mi"]; e "む" ["mu"]; e "め" ["me"]; e "も" ["mo"];
    e "や" ["ya"]; e "ゆ" ["yu"]; e "よ" ["yo"];
    e "ら" ["ra"]; e "り" ["ri"]; e "ru" ["ru"]; e "れ" ["re"]; e "ろ" ["ro"];
    e "わ" ["wa"]; e "を" ["wo"]; e "ん" ["nn"; "xn"; "n"];
    e "が" ["ga"]; e "ぎ" ["gi"]; e "ぐ" ["gu"]; e "げ" ["ge"]; e "ご" ["go"];
    e "ざ" ["za"]; e "じ" ["ji"; "zi"]; e "ず" ["zu"]; e "ぜ" ["ze"]; e "ぞ" ["zo"];
    e "だ" ["da"]; e "ぢ" ["ji"; "di"]; e "づ" ["zu"; "du"]; e "で" ["de"]; e "ど" ["do"];
    e "ば" ["ba"]; e "び" ["bi"]; e "ぶ" ["bu"]; e "べ" ["be"]; e "ぼ" ["bo"];
    e "ぱ" ["pa"]; e "ぴ" ["pi"]; e "ぷ" ["pu"]; e "ぺ" ["pe"]; e "ぽ" ["po"];
    e "ゃ" ["xy"]; e "ゅ" ["xyu"]; e "ょ" ["xyo"];
    e "っ" ["xtu"; "xtsu"];
    e "ー" ["-"]
  ].

(** [COMBO_MAP] of the input handler. *)
Definition COMBO_MAP : object :=
  [
    e "きゃ" ["kya"]; e "きゅ" ["kyu"]; e "きょ" ["kyo"];
    e "しゃ" ["sha"; "sya"]; e "しゅ" ["shu"; "syu"]; e "しょ" ["sho"; "syo"];
    e "ちゃ" ["cha"; "tya"]; e "ちゅ" ["chu"; "tyu"]; e "ちょ" ["cho"; "tyo"];
    e "にゃ" ["nya"]; e "にゅ" ["nyu"]; e "にょ" ["nyo"];
    e "ひゃ" ["hya"]; e "ひゅ" ["hyu"]; e "ひょ" ["hyo"];
    e "みゃ" ["mya"]; e "みゅ" ["myu"]; e "みょ" ["myo"];
    e "りゃ" ["rya"]; e "りゅ" ["ryu"]; e "りょ" ["ryo"];
    e "ぎゃ" ["gya"]; e "ぎゅ" ["gyu"]; e "ぎょ" ["gyo"];
    e "じゃ" ["ja"; "jya"; "zya"]; e "じゅ" ["ju"; "jyu"; "zyu"]; e "じょ" ["jo"; "jyo"; "zyo"];
    e "びゃ" ["bya"]; e "びゅ" ["byu"]; e "びょ" ["byo"];
    e "ぴゃ" ["pya"]; e "ぴゅ" ["pyu"]; e "ぴょ" ["pyo"]
  ].

End Tables.

Import Tables.

Example table_shi : get ROMAJI_TABLE (utf16 "し") = Some (map utf16 ["shi"; "si"; "ci"]%string).
Proof. reflexivity. Qed.

Example table_n : get KANA_ROMAJI_MAP (utf16 "ん") = Some (map utf16 ["nn"; "xn"; "n"]%string).
Proof. reflexivity. Qed.

Example table_ru_missing : get KANA_ROMAJI_MAP (utf16 "る") = None.
Proof. reflexivity. Qed.

(** Early returns: a block of statements either returns a value or falls
    through to the next block. *)
Definition orelse {A} (x : option A) (y : option A) : option A :=
  match x with
  | Some _ => x
  | None => y
  end.

Notation "x <|> y" := (orelse x y) (at level 60, right associativity).

(** ** RomajiCore (RomajiCore.ts) *)

Module RomajiCore.

Record t := mk {
  kanaText : jsstring;
  currentIndex : nat;
  currentInputBuffer : jsstring
}.

(** [constructor(kanaText)] *)
Definition new (kana : jsstring) : t :=
  {| kanaText := kana; currentIndex := 0; currentInputBuffer := [] |}.

Definition isFinished (this : t) : bool :=
  length (kanaText this) <=? currentIndex this.

(** [ROMAJI_TABLE[kana] || []] *)
Definition romajis (kana : jsstring) : list jsstring :=
  match get ROMAJI_TABLE kana with
  | Some rs => rs
  | None => []
  end.

Definition getPossibleRomaji (kana : jsstring) : list jsstring := romajis kana.

Definition matchesAnything (kana input : jsstring) : bool :=
  existsb (fun r => startsWith r input) (romajis kana).

Definition matchesPrefix (kana key : jsstring) : bool :=
  existsb (fun r => startsWith r key) (romajis kana).

Definition isComplete (kana input : jsstring) : bool :=
  includes (romajis kana) input.

(** Equality of two values that are strings or [undefined]. *)
Definition valeq (a b : option jsstring) : bool :=
  match a, b with
  | Some x, Some y => streq x y
  | None, None => true
  | _, _ => false
  end.

(** [[...new Set(xs)]]: first occurrences, in order. *)
Fixpoint dedupe (seen xs : list (option jsstring)) : list (option jsstring) :=
  match xs with
  | [] => []
  | x :: xs' =>
    if existsb (valeq x) seen then dedupe seen xs'
    else x :: dedupe (x :: seen) xs'
  end.

(** [[...new Set(romajis.map(r => r[0]))]] *)
Definition getConsonants (kana : jsstring) : list (option jsstring) :=
  dedupe [] (map (fun r => at_ r 0) (romajis kana)).

Record MatchResult := result {
  completedKanaCount : nat;
  remainingBuffer : jsstring
}.

Definition sokuon : jsstring := utf16 "っ".
Definition hatsuon : jsstring := utf16 "ん".

(** Lines 148-156: the compound (two kana) attempt. *)
Definition tryCompound (text input : jsstring) : option MatchResult :=
  if 2 <=? length text then
    let twoChar := firstn 2 text in
    if matchesAnything twoChar input then
      if isComplete twoChar input then Some (result 2 [])
      else Some (result 0 input)
    else None
  else None.

(** Lines 163-201: the sokuon followed by another kana. *)
Definition trySokuon (text oneChar input : jsstring) : option MatchResult :=
  if streq oneChar sokuon then
    if 2 <=? length text then
      let nextChar := str (at_ text 1) in
      let nextConsonants := getConsonants nextChar in
      if existsb (fun cons => valeq (Some input) cons) nextConsonants then
        Some (result 1 [])
      else if matchesAnything sokuon input then
        if isComplete sokuon input then Some (result 1 [])
        else Some (result 0 input)
      else None
    else None
  else None.

(** Lines 238-243: the single kana. *)
Definition trySingle (oneChar input : jsstring) : option MatchResult :=
  if matchesAnything oneChar input then
    if isComplete oneChar input then Some (result 1 [])
    else Some (result 0 input)
  else None.

(** Lines 247-253: a complete romaji followed by left-over characters. *)
Definition tryOverflow (oneChar input : jsstring) : option MatchResult :=
  match find (fun r => startsWith input r) (getPossibleRomaji oneChar) with
  | Some r => Some (result 1 (skipn (length r) input))
  | None => None
  end.

(** Lines 256-270: the sokuon consumed by the first typed character. *)
Definition trySokuonNext (text oneChar input : jsstring) : option MatchResult :=
  if streq oneChar sokuon && (2 <=? length text) then
    let nextChar := str (at_ text 1) in
    let firstKey := at_ input 0 in
    if matchesPrefix nextChar (str firstKey) then Some (result 1 input)
    else None
  else None.

(** Lines 273-285: a single [n] for the hatsuon. *)
Definition tryNasal (oneChar input : jsstring) : option MatchResult :=
  if streq oneChar hatsuon then
    if startsWith input (utf16 "n") then
      let leftOver := skipn 1 input in
      if 0 <? length leftOver then
        if negb (existsb (valeq (at_ leftOver 0))
                   (map (fun s => Some (utf16 s))
                        ["a"; "i"; "u"; "e"; "o"; "y"; "n"]%string))
        then Some (result 1 leftOver)
        else None
      else None
    else None
  else None.

Definition checkMatch (text input : jsstring) : option MatchResult :=
  tryCompound text input
  <|> (if 1 <=? length text then
         let oneChar := str (at_ text 0) in
         trySokuon text oneChar input
         <|> trySingle oneChar input
         <|> tryOverflow oneChar input
         <|> trySokuonNext text oneChar input
         <|> tryNasal oneChar input
       else None).

(** [input(key)]: the returned boolean and the state after the call. *)
Definition input (this : t) (key : jsstring) : bool * t :=
  if isFinished this then (false, this)
  else
    let remainingKana := skipn (currentIndex this) (kanaText this) in
    let nextInputBuffer := currentInputBuffer this ++ key in
    match checkMatch remainingKana nextInputBuffer with
    | Some matches =>
      if 0 <? completedKanaCount matches then
        (true, {| kanaText := kanaText this;
                  currentIndex := currentIndex this + completedKanaCount matches;
                  currentInputBuffer := remainingBuffer matches |})
      else
        (true, {| kanaText := kanaText this;
                  currentIndex := currentIndex this;
                  currentInputBuffer := nextInputBuffer |})
    | None => (false, this)
    end.

(** [getNextExpectedRomaji()]; [None] is [undefined], which the source can
    only produce from a table entry that is an empty array. *)
Definition getNextExpectedRomaji (this : t) : option jsstring :=
  if isFinished this then Some []
  else
    let remaining := skipn (currentIndex this) (kanaText this) in
    if startsWith remaining sokuon then
      match (if 1 <? length remaining then
               let nextChar := str (at_ remaining 1) in
               match nth_error (getPossibleRomaji nextChar) 0 with
               | Some (c :: r) => Some (Some ([c] ++ (c :: r)))
               | _ => None
               end
             else None) with
      | Some v => v
      | None => Some (utf16 "xtu")
      end
    else
      match (if 2 <=? length remaining then
               match get ROMAJI_TABLE (firstn 2 remaining) with
               | Some rs => Some (nth_error rs 0)
               | None => None
               end
             else None) with
      | Some v => v
      | None =>
        let char := at_ remaining 0 in
        match get ROMAJI_TABLE (str char) with
        | Some rs => nth_error rs 0
        | None => char
        end
      end.

(** [getProgress()] *)
Definition getProgress (this : t) : nat * jsstring * option jsstring :=
  (currentIndex this, currentInputBuffer this, getNextExpectedRomaji this).

(** A sequence of calls of [input], with the booleans returned. *)
Fixpoint inputs (this : t) (keys : list jsstring) : list bool * t :=
  match keys with
  | [] => ([], this)
  | k :: ks =>
    let '(b, this') := input this k in
    let '(bs, this'') := inputs this' ks in
    (b :: bs, this'')
  end.

End RomajiCore.

Example rc_sa :
  RomajiCore.inputs (RomajiCore.new (utf16 "さ")) [utf16 "s"; utf16 "a"]
  = ([true; true], RomajiCore.mk (utf16 "さ") 1 []).
Proof. reflexivity. Qed.

(** ** InputHandler *)

Module InputHandler.

(** The three callbacks ([onKanaTyped], [onInputUpdate], [onComplete]) are
    fields the owner of the handler assigns; a call of one of them is
    recorded as an event, in the order the calls are made. *)
Inductive event :=
| KanaTyped (index : nat)
| InputUpdate (valid : bool) (currentRomaji : jsstring)
| Complete.

(** The counters are JavaScript numbers; [++] is exact on them below 2^53,
    and they are modelled as natural numbers. *)
Record t := mk {
  targetKana : jsstring;
  currentInput : jsstring;
  currentIndex : nat;
  totalTyped : nat;
  totalMisses : nat
}.

(** The field initializers of the class. *)
Definition new : t :=
  {| targetKana := []; currentInput := []; currentIndex := 0;
     totalTyped := 0; totalMisses := 0 |}.

Definition setTarget (this : t) (kana : jsstring) : t :=
  {| targetKana := kana; currentInput := []; currentIndex := 0;
     totalTyped := totalTyped this; totalMisses := totalMisses this |}.

Definition smalls : list jsstring :=
  map utf16 ["ゃ"; "ゅ"; "ょ"; "aa"; "ee"; "ii"; "oo"; "uu"]%string.

(** [isCombo(_c1, c2)]: [smalls.includes(c2)], false for [undefined]. *)
Definition isCombo (_c1 c2 : option jsstring) : bool :=
  match c2 with
  | Some s => includes smalls s
  | None => false
  end.

Definition sokuon : jsstring := utf16 "っ".
Definition placeholder : list jsstring := [utf16 "?"].
Definition xtu : list jsstring := map utf16 ["xtu"; "xtsu"]%string.

(** The body of [getPossibleRomajis(index)] as a function of
    [rest = targetKana.substring(index)], so that [targetKana[index]] is the
    head of [rest], [targetKana[index + 1]] the head of its tail, and the
    recursive call at [index + 1] is the call on the tail. *)
Fixpoint possibleRomajisFrom (rest : jsstring) : list jsstring :=
  match rest with
  | [] =>
    (* c1 and c2 are undefined *)
    match get KANA_ROMAJI_MAP (str None) with
    | Some rs => rs
    | None => placeholder
    end
  | c :: tl =>
    let c1 := [c] in
    let c2 := at_ tl 0 in
    if streq c1 sokuon then
      match c2 with
      | None => xtu
      | Some _ =>
        let nextRomajis := possibleRomajisFrom tl in
        let doubled := map (fun r => str (at_ r 0) ++ r) nextRomajis in
        doubled ++ xtu
      end
    else if isCombo (Some c1) c2 then
      let combo := c1 ++ str c2 in
      match get COMBO_MAP combo with
      | Some rs => rs
      | None => placeholder
      end
    else
      match get KANA_ROMAJI_MAP c1 with
      | Some rs => rs
      | None => placeholder
      end
  end.

Definition getPossibleRomajis (this : t) (index : nat) : list jsstring :=
  possibleRomajisFrom (skipn index (targetKana this)).

(** [advanceChar(_romajiLen)]: the new state and the callbacks called. *)
Definition advanceChar (this : t) (_romajiLen : nat) : t * list event :=
  let currentChar := at_ (targetKana this) (currentIndex this) in
  let nextChar := at_ (targetKana this) (currentIndex this + 1) in
  let advanceCount := if isCombo currentChar nextChar then 2 else 1 in
  let this' := {| targetKana := targetKana this;
                  currentInput := [];
                  currentIndex := currentIndex this + advanceCount;
                  totalTyped := totalTyped this;
                  totalMisses := totalMisses this |} in
  (this',
   [KanaTyped (currentIndex this'); InputUpdate true []]
   ++ (if length (targetKana this') <=? currentIndex this' then [Complete]
       else [])).

(** [handleKey(key)]: the returned boolean, the state after the call and the
    callbacks called. *)
Definition handleKey (this : t) (key : jsstring) : bool * t * list event :=
  if length (targetKana this) <=? currentIndex this then (false, this, [])
  else if negb (length key =? 1) then (false, this, [])
  else
    let possibleRomajis := getPossibleRomajis this (currentIndex this) in
    let nextInput := currentInput this ++ key in
    let isValidPrefix :=
      existsb (fun r => startsWith r nextInput) possibleRomajis in
    if isValidPrefix then
      let this1 := {| targetKana := targetKana this;
                      currentInput := nextInput;
                      currentIndex := currentIndex this;
                      totalTyped := totalTyped this + 1;
                      totalMisses := totalMisses this |} in
      match find (fun r => streq r (currentInput this1)) possibleRomajis with
      | Some (c :: exactMatch) =>
        let '(this2, evs) := advanceChar this1 (length (c :: exactMatch)) in
        (true, this2, evs)
      | _ =>
        (true, this1, [InputUpdate true (currentInput this1)])
      end
    else
      let this1 := {| targetKana := targetKana this;
                      currentInput := currentInput this;
                      currentIndex := currentIndex this;
                      totalTyped := totalTyped this;
                      totalMisses := totalMisses this + 1 |} in
      (false, this1, [InputUpdate false (currentInput this1)]).

(** [getStats()]: the pair [(typed, misses)]. *)
Definition getStats (this : t) : nat * nat :=
  (totalTyped this, totalMisses this).

Definition finished (this : t) : bool :=
  length (targetKana this) <=? currentIndex this.

Definition accepted (this : t) (key : jsstring) : bool :=
  fst (fst (handleKey this key)).

Definition after (this : t) (key : jsstring) : t :=
  snd (fst (handleKey this key)).

(** A sequence of calls of [handleKey]. *)
Fixpoint handleKeys (this : t) (keys : list jsstring) : list bool * t :=
  match keys with
  | [] => ([], this)
  | k :: ks =>
    let '(bs, this') := handleKeys (after this k) ks in
    (accepted this k :: bs, this')
  end.

(** The number of calls of a sequence made while not yet finished. *)
Fixpoint evaluated (this : t) (keys : list jsstring) : nat :=
  match keys with
  | [] => 0
  | k :: ks =>
    (if finished this then 0 else 1) + evaluated (after this k) ks
  end.

End InputHandler.

Example ih_sa :
  InputHandler.handleKeys (InputHandler.setTarget InputHandler.new (utf16 "さ"))
                          [utf16 "s"; utf16 "z"; utf16 "a"]
  = ([true; false; true], InputHandler.mk (utf16 "さ") [] 1 2 1).
Proof. reflexivity. Qed.

(** * Properties *)

(** ** Strings and tables *)

(** [p] is a prefix of [s]. *)
Definition is_prefix (p s : jsstring) : Prop := exists t, s = p ++ t.

Lemma streq_true_iff (a b : jsstring) : streq a b = true <-> a = b.
Proof.
  revert b; induction a as [|x a IH]; intros [|y b]; simpl;
    try (split; (reflexivity || discriminate)).
  rewrite andb_true_iff, N.eqb_eq, IH.
  split; [intros [-> ->]; reflexivity | intros [= -> ->]; auto].
Qed.

Lemma streq_refl (a : jsstring) : streq a a = true.
Proof. apply streq_true_iff; reflexivity. Qed.

Lemma startsWith_iff (s p : jsstring) : startsWith s p = true <-> is_prefix p s.
Proof.
  revert s; induction p as [|y p IH]; intros s; simpl.
  - split; [exists s; reflexivity | reflexivity].
  - destruct s as [|x s].
    + split; [discriminate | intros [t Ht]; discriminate].
    + rewrite andb_true_iff, N.eqb_eq, IH. split.
      * intros [-> [t ->]]. exists t; reflexivity.
      * intros [t Ht]. injection Ht as -> ->. split; [reflexivity | exists t; reflexivity].
Qed.

Lemma startsWith_nil (s : jsstring) : startsWith s [] = true.
Proof. destruct s; reflexivity. Qed.

Lemma startsWith_refl (s : jsstring) : startsWith s s = true.
Proof. apply startsWith_iff. exists []. symmetry; apply app_nil_r. Qed.

Lemma startsWith_length (s p : jsstring) :
  startsWith s p = true -> length p <= length s.
Proof.
  intros [t ->]%startsWith_iff. rewrite length_app. lia.
Qed.

(** A successful lookup returns the value of an entry of the literal. *)
Lemma get_In (o : object) (k : jsstring) (v : list jsstring) :
  get o k = Some v -> In (k, v) o.
Proof.
  unfold get.
  assert (G : forall acc, fold_left
             (fun acc kv => if streq (fst kv) k then Some (snd kv) else acc)
             o acc = Some v -> acc = Some v \/ In (k, v) o).
  { induction o as [|[k' v'] o IH]; simpl; intros acc H; [left; exact H|].
    apply IH in H. destruct H as [H|H]; [|right; right; exact H].
    destruct (streq k' k) eqn:E.
    - apply streq_true_iff in E. injection H as ->. subst k'.
      right; left; reflexivity.
    - left; exact H. }
  intros H. apply G in H. destruct H as [H|H]; [discriminate | exact H].
Qed.

(** Every entry of the three tables is a non-empty array of non-empty
    strings. *)
Definition well_formed (o : object) : bool :=
  forallb (fun kv => match snd kv with
                     | [] => false
                     | rs => forallb (fun r => negb (streq r [])) rs
                     end) o.

Lemma tables_well_formed :
  well_formed ROMAJI_TABLE = true /\ well_formed KANA_ROMAJI_MAP = true
  /\ well_formed COMBO_MAP = true.
Proof. repeat split; vm_compute; reflexivity. Qed.


(** ** The input handler: frame properties and counters *)

Section InputHandlerSteps.

Import InputHandler.

Lemma handleKey_finished (this : t) (key : jsstring) :
  finished this = true -> handleKey this key = (false, this, []).
Proof. unfold finished, handleKey. intros ->. reflexivity. Qed.

Lemma handleKey_not_char (this : t) (key : jsstring) :
  length key <> 1 -> handleKey this key = (false, this, []).
Proof.
  intros H. unfold handleKey.
  destruct (length (targetKana this) <=? currentIndex this); [reflexivity|].
  apply Nat.eqb_neq in H. rewrite H. reflexivity.
Qed.

(** The three outcomes of an evaluated call. *)
Inductive outcome (this : t) (key : jsstring) : bool -> t -> Prop :=
| Partial :
    outcome this key true
      {| targetKana := targetKana this;
         currentInput := currentInput this ++ key;
         currentIndex := currentIndex this;
         totalTyped := totalTyped this + 1;
         totalMisses := totalMisses this |}
| Completed n :
    n = 1 \/ n = 2 ->
    outcome this key true
      {| targetKana := targetKana this;
         currentInput := [];
         currentIndex := currentIndex this + n;
         totalTyped := totalTyped this + 1;
         totalMisses := totalMisses this |}
| Rejected :
    outcome this key false
      {| targetKana := targetKana this;
         currentInput := currentInput this;
         currentIndex := currentIndex this;
         totalTyped := totalTyped this;
         totalMisses := totalMisses this + 1 |}.

Lemma handleKey_outcome (this : t) (key : jsstring) :
  finished this = false -> length key = 1 ->
  outcome this key (accepted this key) (after this key).
Proof.
  unfold finished, accepted, after, handleKey. intros -> ->. simpl.
  destruct (existsb _ _); [|apply Rejected].
  destruct (find _ _) as [[|c m]|]; simpl; try apply Partial.
  unfold advanceChar; simpl.
  destruct (isCombo _ _); simpl; apply Completed; auto.
Qed.

Lemma handleKeys_app (this : t) (pre post : list jsstring) :
  snd (handleKeys this (pre ++ post))
  = snd (handleKeys (snd (handleKeys this pre)) post).
Proof.
  revert this; induction pre as [|k pre IH]; intros this; simpl; [reflexivity|].
  specialize (IH (after this k)).
  destruct (handleKeys (after this k) (pre ++ post)) as [bs s1].
  destruct (handleKeys (after this k) pre) as [bs' s2]. simpl in *.
  exact IH.
Qed.

Lemma handleKeys_cons (this : t) (k : jsstring) (ks : list jsstring) :
  handleKeys this (k :: ks)
  = (accepted this k :: fst (handleKeys (after this k) ks),
     snd (handleKeys (after this k) ks)).
Proof. simpl. destruct (handleKeys (after this k) ks); reflexivity. Qed.

Lemma after_counters_monotone (this : t) (key : jsstring) :
  totalTyped this <= totalTyped (after this key)
  /\ totalMisses this <= totalMisses (after this key).
Proof.
  destruct (finished this) eqn:F.
  - unfold after. rewrite handleKey_finished by exact F. simpl; lia.
  - destruct (Nat.eq_dec (length key) 1) as [L|L].
    + destruct (handleKey_outcome this key F L); simpl; lia.
    + unfold after. rewrite handleKey_not_char by exact L. simpl; lia.
Qed.

Lemma handleKeys_counters_monotone (this : t) (keys : list jsstring) :
  totalTyped this <= totalTyped (snd (handleKeys this keys))
  /\ totalMisses this <= totalMisses (snd (handleKeys this keys)).
Proof.
  revert this; induction keys as [|k ks IH]; intros this; [simpl; lia|].
  rewrite handleKeys_cons; simpl.
  pose proof (after_counters_monotone this k).
  specialize (IH (after this k)). lia.
Qed.

End InputHandlerSteps.

(** C10.  A key string whose length is not exactly 1 makes [handleKey]
    return false and leaves the whole state of the handler unchanged, the
    counters [totalTyped] and [totalMisses] included, and calls no callback;
    this holds in every state, finished or not. *)
Theorem handleKey_ignores_non_char (this : InputHandler.t) (key : jsstring) :
  length key <> 1 ->
  InputHandler.handleKey this key = (false, this, [])
  /\ InputHandler.getStats (InputHandler.after this key)
     = InputHandler.getStats this.
Proof.
  intros H. unfold InputHandler.after.
  rewrite (handleKey_not_char this key H). split; reflexivity.
Qed.

Lemma handleKey_ignores_non_char_witness :
  let this := InputHandler.setTarget InputHandler.new (utf16 "さ") in
  InputHandler.finished this = false
  /\ InputHandler.handleKey this (utf16 "Shift") = (false, this, []).
Proof.
  split; [reflexivity|].
  apply (handleKey_ignores_non_char
           (InputHandler.setTarget InputHandler.new (utf16 "さ"))
           (utf16 "Shift")).
  simpl. discriminate.
Defined.

(** C9.  [setTarget] on an existing handler sets the cursor to 0 and empties
    the input buffer and leaves [totalTyped] and [totalMisses] as they were,
    so that [getStats] reports counts accumulated over the successive
    targets: after any further keys the counts are at least the counts held
    before the call. *)
Theorem setTarget_keeps_counters (this : InputHandler.t) (kana : jsstring) :
  InputHandler.targetKana (InputHandler.setTarget this kana) = kana
  /\ InputHandler.currentIndex (InputHandler.setTarget this kana) = 0
  /\ InputHandler.currentInput (InputHandler.setTarget this kana) = []
  /\ InputHandler.getStats (InputHandler.setTarget this kana)
     = InputHandler.getStats this
  /\ forall keys,
       let final := snd (InputHandler.handleKeys
                           (InputHandler.setTarget this kana) keys) in
       InputHandler.totalTyped this <= InputHandler.totalTyped final
       /\ InputHandler.totalMisses this <= InputHandler.totalMisses final.
Proof.
  repeat split; try reflexivity;
    apply (handleKeys_counters_monotone (InputHandler.setTarget this kana) keys).
Qed.

Example setTarget_accumulates :
  let s1 := snd (InputHandler.handleKeys
                   (InputHandler.setTarget InputHandler.new (utf16 "さ"))
                   [utf16 "s"; utf16 "z"; utf16 "a"]) in
  let s2 := snd (InputHandler.handleKeys
                   (InputHandler.setTarget s1 (utf16 "と"))
                   [utf16 "t"; utf16 "o"]) in
  InputHandler.getStats s1 = (2, 1) /\ InputHandler.getStats s2 = (4, 1).
Proof. split; reflexivity. Qed.

(** C4.  Once the cursor has reached the end of the target, every further
    call is refused and changes nothing: for any keys, each call returns
    false and the state after all of them (cursor, buffer, both counters) is
    the state before; the same holds for [RomajiCore.input]. *)
Theorem finished_absorption
    (this : InputHandler.t) (core : RomajiCore.t) (keys : list jsstring) :
  InputHandler.finished this = true ->
  RomajiCore.isFinished core = true ->
  InputHandler.handleKeys this keys = (map (fun _ => false) keys, this)
  /\ RomajiCore.inputs core keys = (map (fun _ => false) keys, core).
Proof.
  intros F G. split.
  - induction keys as [|k ks IH]; [reflexivity|].
    rewrite handleKeys_cons. unfold InputHandler.accepted, InputHandler.after.
    rewrite (handleKey_finished this k F). simpl. rewrite IH. reflexivity.
  - induction keys as [|k ks IH]; [reflexivity|].
    simpl. unfold RomajiCore.input at 1. rewrite G, IH. reflexivity.
Qed.

Lemma finished_absorption_witness :
  let this := snd (InputHandler.handleKeys
                     (InputHandler.setTarget InputHandler.new (utf16 "さ"))
                     [utf16 "s"; utf16 "a"]) in
  let core := snd (RomajiCore.inputs (RomajiCore.new (utf16 "さ"))
                     [utf16 "s"; utf16 "a"]) in
  InputHandler.handleKeys this [utf16 "s"; utf16 "a"; utf16 "Enter"]
  = ([false; false; false], this)
  /\ RomajiCore.inputs core [utf16 "s"; utf16 "a"; utf16 "Enter"]
     = ([false; false; false], core).
Proof.
  exact (finished_absorption
           (snd (InputHandler.handleKeys
                   (InputHandler.setTarget InputHandler.new (utf16 "さ"))
                   [utf16 "s"; utf16 "a"]))
           (snd (RomajiCore.inputs (RomajiCore.new (utf16 "さ"))
                   [utf16 "s"; utf16 "a"]))
           [utf16 "s"; utf16 "a"; utf16 "Enter"]
           eq_refl eq_refl).
Defined.

(** Exactly one of the two counters grows, by exactly one. *)
Definition one_counter_incremented (s s' : InputHandler.t) : Prop :=
  (InputHandler.totalTyped s' = InputHandler.totalTyped s + 1
   /\ InputHandler.totalMisses s' = InputHandler.totalMisses s)
  \/ (InputHandler.totalTyped s' = InputHandler.totalTyped s
      /\ InputHandler.totalMisses s' = InputHandler.totalMisses s + 1).

Lemma evaluated_conservation (this : InputHandler.t) (keys : list jsstring) :
  Forall (fun k => length k = 1) keys ->
  InputHandler.totalTyped (snd (InputHandler.handleKeys this keys))
  + InputHandler.totalMisses (snd (InputHandler.handleKeys this keys))
  = InputHandler.totalTyped this + InputHandler.totalMisses this
    + InputHandler.evaluated this keys.
Proof.
  intros H; revert this; induction H as [|k ks L _ IH]; intros this;
    [simpl; lia|].
  rewrite handleKeys_cons; simpl. rewrite IH.
  destruct (InputHandler.finished this) eqn:F.
  - unfold InputHandler.after. rewrite handleKey_finished by exact F. simpl; lia.
  - destruct (handleKey_outcome this k F L); simpl; lia.
Qed.

(** C3.  For every sequence of single-character keys, from any state: each
    call made while the handler is not finished increments exactly one of
    [totalTyped] and [totalMisses], by exactly 1, and after the sequence the
    sum of the two counters has grown by the number of calls made while not
    finished. *)
Theorem counter_conservation (this : InputHandler.t) (keys : list jsstring) :
  Forall (fun k => length k = 1) keys ->
  (forall pre k post,
     keys = pre ++ k :: post ->
     let s := snd (InputHandler.handleKeys this pre) in
     InputHandler.finished s = false ->
     one_counter_incremented s (InputHandler.after s k))
  /\ InputHandler.totalTyped (snd (InputHandler.handleKeys this keys))
     + InputHandler.totalMisses (snd (InputHandler.handleKeys this keys))
     = InputHandler.totalTyped this + InputHandler.totalMisses this
       + InputHandler.evaluated this keys.
Proof.
  intros H. split; [|apply evaluated_conservation; exact H].
  intros pre k post -> s F.
  assert (L : length k = 1).
  { rewrite Forall_forall in H. apply H. apply in_elt. }
  unfold one_counter_incremented.
  destruct (handleKey_outcome s k F L); simpl; lia.
Qed.

Lemma counter_conservation_witness :
  let this := InputHandler.setTarget InputHandler.new (utf16 "さ") in
  let keys := [utf16 "s"; utf16 "z"; utf16 "a"; utf16 "a"] in
  InputHandler.evaluated this keys = 3
  /\ InputHandler.totalTyped (snd (InputHandler.handleKeys this keys))
     + InputHandler.totalMisses (snd (InputHandler.handleKeys this keys))
     = 0 + 0 + InputHandler.evaluated this keys.
Proof.
  split; [reflexivity|].
  apply (counter_conservation
           (InputHandler.setTarget InputHandler.new (utf16 "さ"))
           [utf16 "s"; utf16 "z"; utf16 "a"; utf16 "a"]).
  repeat constructor.
Defined.

(** ** The input handler: rejection and the prefix invariant *)












Example prefix_invariant_sokuon :
  let s := snd (InputHandler.handleKeys
                  (InputHandler.setTarget InputHandler.new (utf16 "っと"))
                  [utf16 "t"]) in
  InputHandler.currentIndex s = 0
  /\ InputHandler.currentInput s = utf16 "t"
  /\ InputHandler.getPossibleRomajis s 0
     = map utf16 ["tto"; "xtu"; "xtsu"]%string.
Proof. repeat split. Qed.

(** ** Facts about the tables *)

Definition is_some {A} (o : option A) : bool :=
  match o with Some _ => true | None => false end.

(** The first kana of every two-kana key of [ROMAJI_TABLE] has an entry of
    its own, and it is neither the sokuon nor the hatsuon; the same for
    [COMBO_MAP] with respect to [KANA_ROMAJI_MAP]. *)
Definition compound_heads (compounds singles : object) : bool :=
  forallb (fun kv =>
             match fst kv with
             | [a; _] =>
               is_some (get singles [a])
               && negb (streq [a] RomajiCore.sokuon)
               && negb (streq [a] RomajiCore.hatsuon)
             | _ => true
             end) compounds.

Lemma compound_heads_tables :
  compound_heads ROMAJI_TABLE ROMAJI_TABLE = true
  /\ compound_heads COMBO_MAP KANA_ROMAJI_MAP = true.
Proof. split; vm_compute; reflexivity. Qed.

Lemma compound_head_known (compounds singles : object) (a b : N) :
  compound_heads compounds singles = true ->
  get compounds [a; b] <> None ->
  get singles [a] <> None
  /\ [a] <> RomajiCore.sokuon /\ [a] <> RomajiCore.hatsuon.
Proof.
  intros W H. destruct (get compounds [a; b]) as [v|] eqn:E; [|contradiction].
  apply get_In in E. unfold compound_heads in W.
  rewrite forallb_forall in W. specialize (W _ E). cbn [fst] in W.
  apply andb_prop in W. destruct W as [W W3].
  apply andb_prop in W. destruct W as [W1 W2].
  repeat split.
  - destruct (get singles [a]); [discriminate | discriminate].
  - intros Heq. rewrite <- Heq, streq_refl in W2. discriminate.
  - intros Heq. rewrite <- Heq, streq_refl in W3. discriminate.
Qed.

Lemma sokuon_known :
  get ROMAJI_TABLE RomajiCore.sokuon <> None
  /\ get ROMAJI_TABLE RomajiCore.hatsuon <> None
  /\ get KANA_ROMAJI_MAP InputHandler.sokuon <> None.
Proof. repeat split; vm_compute; discriminate. Qed.

Lemma firstn_2_cons (c : N) (tl : jsstring) :
  2 <= length (c :: tl) -> exists d, firstn 2 (c :: tl) = [c; d].
Proof.
  destruct tl as [|d tl]; simpl; [lia|]. intros _. exists d; reflexivity.
Qed.

(** ** Unknown units *)

Lemma streq_false_of_unknown (c : N) (k : jsstring) :
  get ROMAJI_TABLE [c] = None -> get ROMAJI_TABLE k <> None ->
  streq [c] k = false.
Proof.
  intros U K. destruct (streq [c] k) eqn:E; [|reflexivity].
  apply streq_true_iff in E. subst k. contradiction.
Qed.

Lemma checkMatch_unknown (c : N) (tl input : jsstring) :
  get ROMAJI_TABLE [c] = None ->
  RomajiCore.checkMatch (c :: tl) input = None.
Proof.
  intros U. destruct sokuon_known as (KS & KH & _).
  destruct compound_heads_tables as [WR _].
  unfold RomajiCore.checkMatch.
  assert (C : RomajiCore.tryCompound (c :: tl) input = None).
  { unfold RomajiCore.tryCompound.
    destruct (2 <=? length (c :: tl)) eqn:L; [|reflexivity].
    apply Nat.leb_le in L. destruct (firstn_2_cons c tl L) as [d ->].
    unfold RomajiCore.matchesAnything, RomajiCore.romajis.
    destruct (get ROMAJI_TABLE [c; d]) eqn:E; [|reflexivity].
    assert (K : get ROMAJI_TABLE [c; d] <> None) by (rewrite E; discriminate).
    destruct (compound_head_known _ _ c d WR K) as [K1 _]. contradiction. }
  rewrite C. cbn [orelse length Nat.leb at_ nth_error str].
  unfold RomajiCore.trySokuon, RomajiCore.trySokuonNext, RomajiCore.tryNasal.
  rewrite (streq_false_of_unknown c _ U KS), (streq_false_of_unknown c _ U KH).
  unfold RomajiCore.trySingle, RomajiCore.tryOverflow,
    RomajiCore.matchesAnything, RomajiCore.getPossibleRomaji,
    RomajiCore.romajis.
  rewrite U. reflexivity.
Qed.

Lemma input_unknown (core : RomajiCore.t) (c : N) (key : jsstring) :
  nth_error (RomajiCore.kanaText core) (RomajiCore.currentIndex core) = Some c ->
  get ROMAJI_TABLE [c] = None ->
  RomajiCore.input core key = (false, core).
Proof.
  intros Hc U. unfold RomajiCore.input.
  destruct (RomajiCore.isFinished core); [reflexivity|]. cbv zeta.
  destruct (nth_error_split _ _ Hc) as (l1 & l2 & Heq & Hlen).
  rewrite Heq at 1. rewrite <- Hlen, skipn_app, skipn_all, Nat.sub_diag.
  simpl skipn. rewrite (checkMatch_unknown c l2 _ U). reflexivity.
Qed.

Lemma possibleRomajisFrom_unknown (d : N) (tl : jsstring) :
  get KANA_ROMAJI_MAP [d] = None ->
  InputHandler.possibleRomajisFrom (d :: tl) = InputHandler.placeholder.
Proof.
  intros U. destruct sokuon_known as (_ & _ & KS).
  destruct compound_heads_tables as [_ WC].
  cbn [InputHandler.possibleRomajisFrom].
  assert (S : streq [d] InputHandler.sokuon = false).
  { destruct (streq [d] InputHandler.sokuon) eqn:E; [|reflexivity].
    apply streq_true_iff in E. rewrite <- E in KS. contradiction. }
  rewrite S. rewrite U.
  destruct (InputHandler.isCombo (Some [d]) (at_ tl 0)) eqn:C; [|reflexivity].
  destruct (at_ tl 0) as [s|] eqn:A; [|discriminate].
  unfold at_ in A. destruct (nth_error tl 0) as [x|]; [|discriminate].
  injection A as <-. simpl.
  destruct (get COMBO_MAP [d; x]) eqn:E; [|reflexivity].
  assert (K : get COMBO_MAP [d; x] <> None) by (rewrite E; discriminate).
  destruct (compound_head_known _ _ d x WC K) as [K1 _]. contradiction.
Qed.

Lemma inputs_unknown (core : RomajiCore.t) (c : N) (keys : list jsstring) :
  nth_error (RomajiCore.kanaText core) (RomajiCore.currentIndex core) = Some c ->
  get ROMAJI_TABLE [c] = None ->
  RomajiCore.inputs core keys = (map (fun _ => false) keys, core).
Proof.
  intros Hc U. induction keys as [|k ks IH]; [reflexivity|].
  simpl. rewrite (input_unknown core c k Hc U), IH. reflexivity.
Qed.

Lemma getPossibleRomajis_unknown (this : InputHandler.t) (d : N) :
  nth_error (InputHandler.targetKana this) (InputHandler.currentIndex this)
  = Some d ->
  get KANA_ROMAJI_MAP [d] = None ->
  InputHandler.getPossibleRomajis this (InputHandler.currentIndex this)
  = InputHandler.placeholder.
Proof.
  intros Hd U. unfold InputHandler.getPossibleRomajis.
  destruct (nth_error_split _ _ Hd) as (l1 & l2 & Heq & Hlen).
  rewrite Heq, <- Hlen, skipn_app, skipn_all, Nat.sub_diag. simpl skipn.
  apply possibleRomajisFrom_unknown; exact U.
Qed.

Lemma prefix_of_char (buffer key : jsstring) (q : N) :
  length key = 1 ->
  (startsWith [q] (buffer ++ key) = true <-> buffer = [] /\ key = [q]).
Proof.
  intros L. destruct key as [|k [|]]; try discriminate.
  destruct buffer as [|b [|b' buffer]]; simpl.
  - rewrite andb_true_r, N.eqb_eq. split.
    + intros ->; auto.
    + intros [_ [= ->]]; reflexivity.
  - rewrite andb_false_r. split; [discriminate | intros [[=] _]].
  - rewrite andb_false_r. split; [discriminate | intros [[=] _]].
Qed.

(** C6, as the code has it.  At a unit whose kana has no table entry,
    [RomajiCore.input] rejects every key and the state never changes; the
    input handler falls back to the single placeholder spelling [?]: a
    single-character key is accepted exactly when it is [?] typed on an empty
    buffer, and then the cursor advances past the unit. *)
Theorem unknown_unit
    (core : RomajiCore.t) (this : InputHandler.t) (c d : N) (key : jsstring) :
  nth_error (RomajiCore.kanaText core) (RomajiCore.currentIndex core) = Some c ->
  get ROMAJI_TABLE [c] = None ->
  nth_error (InputHandler.targetKana this) (InputHandler.currentIndex this)
  = Some d ->
  get KANA_ROMAJI_MAP [d] = None ->
  length key = 1 ->
  (forall keys,
     RomajiCore.inputs core keys = (map (fun _ => false) keys, core))
  /\ (InputHandler.accepted this key = true
      <-> InputHandler.currentInput this = [] /\ key = utf16 "?")
  /\ (InputHandler.accepted this key = true ->
      InputHandler.currentIndex this
      < InputHandler.currentIndex (InputHandler.after this key)).
Proof.
  intros Hc Uc Hd Ud L.
  split; [intros keys; exact (inputs_unknown core c keys Hc Uc)|].
  assert (F : (length (InputHandler.targetKana this)
               <=? InputHandler.currentIndex this) = false).
  { apply Nat.leb_gt. apply nth_error_Some. rewrite Hd; discriminate. }
  pose proof (getPossibleRomajis_unknown this d Hd Ud) as P.
  pose proof (prefix_of_char (InputHandler.currentInput this) key 63%N L) as Q.
  unfold InputHandler.accepted, InputHandler.after, InputHandler.handleKey.
  rewrite F, L, P. cbn [Nat.eqb negb]. cbv zeta.
  unfold InputHandler.placeholder.
  change (utf16 "?") with [63%N] in *.
  cbn [existsb orb].
  rewrite orb_false_r.
  destruct (startsWith [63%N] (InputHandler.currentInput this ++ key)) eqn:E.
  - destruct Q as [Q _]. destruct (Q eq_refl) as [-> ->].
    cbn [find InputHandler.currentInput app streq N.eqb Pos.eqb andb
         InputHandler.advanceChar fst snd InputHandler.currentIndex].
    split; [tauto|]. intros _.
    destruct (InputHandler.isCombo _ _); simpl; lia.
  - simpl. split; [|discriminate].
    split; [discriminate | intros H; apply Q in H; discriminate].
Qed.

Lemma unknown_unit_witness :
  let core := RomajiCore.new (utf16 "ア") in
  let this := InputHandler.setTarget InputHandler.new (utf16 "ア") in
  RomajiCore.inputs core [utf16 "a"; utf16 "?"] = ([false; false], core)
  /\ InputHandler.accepted this (utf16 "a") = false
  /\ InputHandler.accepted this (utf16 "?") = true.
Proof.
  destruct (unknown_unit (RomajiCore.new (utf16 "ア"))
              (InputHandler.setTarget InputHandler.new (utf16 "ア"))
              12450%N 12450%N (utf16 "a")
              eq_refl eq_refl eq_refl eq_refl eq_refl) as (H1 & _ & _).
  split; [exact (H1 [utf16 "a"; utf16 "?"])|].
  split; reflexivity.
Defined.

(** C6 as stated fails on the input handler: the katakana ア has no entry in
    [KANA_ROMAJI_MAP], and yet the key [?] is accepted at it and moves the
    cursor past it. *)
Lemma unknown_unit_counterexample :
  get KANA_ROMAJI_MAP (utf16 "ア") = None
  /\ InputHandler.handleKey
       (InputHandler.setTarget InputHandler.new (utf16 "ア")) (utf16 "?")
     = (true, InputHandler.mk (utf16 "ア") [] 1 1 0,
        [InputHandler.KanaTyped 1; InputHandler.InputUpdate true [];
         InputHandler.Complete]).
Proof. split; reflexivity. Qed.

(** ** The hint *)

(** The spellings of the unit at the cursor as [getNextExpectedRomaji]
    selects them: the entry of the first two kana when there is one, else
    the entry of the first kana. *)
Definition unit_spellings (core : RomajiCore.t) : option (list jsstring) :=
  let remaining :=
    skipn (RomajiCore.currentIndex core) (RomajiCore.kanaText core) in
  match (if 2 <=? length remaining
         then get ROMAJI_TABLE (firstn 2 remaining) else None) with
  | Some rs => Some rs
  | None => get ROMAJI_TABLE (str (at_ remaining 0))
  end.

(** C8, as the code has it.  For a plain or contracted unit in progress
    (not finished, not the sokuon) whose spellings are [canonical :: others],
    [getNextExpectedRomaji] returns the canonical spelling in full, whatever
    the buffer holds; it is computed from the target and the cursor alone, so
    that replacing the buffer leaves it unchanged. *)
Theorem hint_is_full_canonical
    (core : RomajiCore.t) (canonical : jsstring) (others : list jsstring)
    (buffer : jsstring) :
  RomajiCore.isFinished core = false ->
  startsWith (skipn (RomajiCore.currentIndex core) (RomajiCore.kanaText core))
             RomajiCore.sokuon = false ->
  unit_spellings core = Some (canonical :: others) ->
  RomajiCore.getNextExpectedRomaji core = Some canonical
  /\ RomajiCore.getNextExpectedRomaji
       (RomajiCore.mk (RomajiCore.kanaText core) (RomajiCore.currentIndex core)
                      buffer)
     = Some canonical.
Proof.
  intros F S U.
  assert (G : forall b,
             RomajiCore.getNextExpectedRomaji
               (RomajiCore.mk (RomajiCore.kanaText core)
                              (RomajiCore.currentIndex core) b)
             = Some canonical).
  { intros b. unfold RomajiCore.getNextExpectedRomaji, RomajiCore.isFinished.
    cbn [RomajiCore.kanaText RomajiCore.currentIndex].
    unfold RomajiCore.isFinished in F. rewrite F. cbv zeta. rewrite S.
    unfold unit_spellings in U. cbv zeta in U.
    destruct (2 <=? length _).
    - destruct (get ROMAJI_TABLE (firstn 2 _)) as [rs|].
      + injection U as ->. reflexivity.
      + rewrite U. reflexivity.
    - rewrite U. reflexivity. }
  split; [|apply G].
  destruct core as [text index b]. apply G.
Qed.

Lemma hint_is_full_canonical_witness :
  let core := snd (RomajiCore.input (RomajiCore.new (utf16 "しゃ")) (utf16 "s")) in
  RomajiCore.currentInputBuffer core = utf16 "s"
  /\ RomajiCore.getNextExpectedRomaji core = Some (utf16 "sha").
Proof.
  split; [reflexivity|].
  apply (hint_is_full_canonical
           (snd (RomajiCore.input (RomajiCore.new (utf16 "しゃ")) (utf16 "s")))
           (utf16 "sha") [utf16 "sya"] []); reflexivity.
Defined.

(** C8 as stated fails: on the target さ with the accepted buffer [s], the
    hint is the whole canonical spelling [sa], not the canonical spelling
    with the first character stripped. *)
Lemma hint_counterexample :
  let core := snd (RomajiCore.input (RomajiCore.new (utf16 "さ")) (utf16 "s")) in
  core = RomajiCore.mk (utf16 "さ") 0 (utf16 "s")
  /\ unit_spellings core = Some [utf16 "sa"]
  /\ RomajiCore.getNextExpectedRomaji core = Some (utf16 "sa")
  /\ RomajiCore.getNextExpectedRomaji core
     <> Some (skipn (length (RomajiCore.currentInputBuffer core)) (utf16 "sa")).
Proof. repeat split. discriminate. Qed.

(** ** The sokuon *)


(** ** The hatsuon *)

(** The guarded block of lines 273-285 never returns a result: whenever the
    input starts with [n], the loop of lines 247-253 has already consumed the
    spelling [n] of the table entry of ん. *)
Lemma tryNasal_shadowed (oneChar input : jsstring) :
  RomajiCore.tryOverflow oneChar input = None ->
  RomajiCore.tryNasal oneChar input = None.
Proof.
  unfold RomajiCore.tryNasal, RomajiCore.tryOverflow.
  destruct (streq oneChar RomajiCore.hatsuon) eqn:E; [|reflexivity].
  apply streq_true_iff in E. subst oneChar.
  destruct (startsWith input (utf16 "n")) eqn:S; [|reflexivity].
  change (RomajiCore.getPossibleRomaji RomajiCore.hatsuon)
    with (map utf16 ["n"; "nn"; "n'"]%string).
  cbn [map find]. rewrite S. discriminate.
Qed.

Lemma tryCompound_hatsuon (tl input : jsstring) :
  RomajiCore.tryCompound (RomajiCore.hatsuon ++ tl) input = None.
Proof.
  destruct compound_heads_tables as [WR _].
  unfold RomajiCore.tryCompound.
  destruct (2 <=? length (RomajiCore.hatsuon ++ tl)) eqn:L; [|reflexivity].
  apply Nat.leb_le in L.
  destruct (firstn_2_cons 12435%N tl L) as [d Hd].
  change (RomajiCore.hatsuon ++ tl) with (12435%N :: tl). rewrite Hd.
  unfold RomajiCore.matchesAnything, RomajiCore.romajis.
  destruct (get ROMAJI_TABLE [12435%N; d]) eqn:E; [|reflexivity].
  assert (K : get ROMAJI_TABLE [12435%N; d] <> None) by (rewrite E; discriminate).
  destruct (compound_head_known _ _ _ d WR K) as (_ & _ & K3).
  exfalso; apply K3; reflexivity.
Qed.

(** At the hatsuon, an input [n] followed by a character that is neither
    [n] nor the apostrophe completes the unit and leaves the rest in the
    buffer, be that character a vowel or not. *)
Lemma checkMatch_hatsuon_leftover (tl : jsstring) (h : N) (rest : jsstring) :
  h <> 110%N -> h <> 39%N ->
  RomajiCore.checkMatch (RomajiCore.hatsuon ++ tl) (utf16 "n" ++ h :: rest)
  = Some (RomajiCore.result 1 (h :: rest)).
Proof.
  intros Hn Ha. unfold RomajiCore.checkMatch.
  rewrite tryCompound_hatsuon.
  change (RomajiCore.hatsuon ++ tl) with (12435%N :: tl).
  change (utf16 "n" ++ h :: rest) with (110%N :: h :: rest).
  cbn [orelse length Nat.leb at_ nth_error str].
  change (RomajiCore.trySokuon (12435%N :: tl) [12435%N] (110%N :: h :: rest))
    with (@None RomajiCore.MatchResult).
  cbn [orelse].
  unfold RomajiCore.trySingle, RomajiCore.matchesAnything.
  change (RomajiCore.romajis [12435%N])
    with [[110%N]; [110%N; 110%N]; [110%N; 39%N]].
  cbn [existsb startsWith].
  apply N.eqb_neq in Hn, Ha.
  rewrite (N.eqb_sym 110 h), (N.eqb_sym 39 h), Hn, Ha, N.eqb_refl.
  cbn [andb orb orelse].
  unfold RomajiCore.tryOverflow.
  change (RomajiCore.getPossibleRomaji [12435%N])
    with [[110%N]; [110%N; 110%N]; [110%N; 39%N]].
  reflexivity.
Qed.

(** C2 on the code.  With ん at the cursor, an input made of [n] and a vowel
    (or [y]) completes the hatsuon and leaves the vowel in the buffer: the
    guard of lines 273-285 is not consulted.  A bare [n] followed by [n] and
    more is consumed as well. *)
Theorem hatsuon_n_vowel :
  RomajiCore.checkMatch (utf16 "んあ") (utf16 "na")
  = Some (RomajiCore.result 1 (utf16 "a"))
  /\ RomajiCore.checkMatch (utf16 "んや") (utf16 "ny")
     = Some (RomajiCore.result 1 (utf16 "y"))
  /\ RomajiCore.checkMatch (utf16 "んな") (utf16 "nna")
     = Some (RomajiCore.result 1 (utf16 "na"))
  /\ RomajiCore.input (RomajiCore.new (utf16 "んあ")) (utf16 "na")
     = (true, RomajiCore.mk (utf16 "んあ") 1 (utf16 "a"))
  /\ RomajiCore.inputs (RomajiCore.new (utf16 "んあ")) [utf16 "n"; utf16 "a"]
     = ([true; true], RomajiCore.mk (utf16 "んあ") 2 [])
  /\ RomajiCore.tryNasal RomajiCore.hatsuon (utf16 "nk")
     = Some (RomajiCore.result 1 (utf16 "k"))
  /\ RomajiCore.tryNasal RomajiCore.hatsuon (utf16 "na") = None.
Proof. repeat split. Qed.

(** ** RomajiCore under single-character keys: no left-over is ever produced *)

Lemma valeq_true_iff (a b : option jsstring) :
  RomajiCore.valeq a b = true <-> a = b.
Proof.
  destruct a as [x|], b as [y|]; simpl;
    try (split; (reflexivity || discriminate)).
  rewrite streq_true_iff. split; [intros ->; reflexivity | intros [= ->]; reflexivity].
Qed.

Lemma existsb_dedupe (x : option jsstring) (seen xs : list (option jsstring)) :
  existsb (RomajiCore.valeq x) (RomajiCore.dedupe seen xs)
  || existsb (RomajiCore.valeq x) seen
  = existsb (RomajiCore.valeq x) xs || existsb (RomajiCore.valeq x) seen.
Proof.
  revert seen; induction xs as [|a xs IH]; intros seen; [reflexivity|].
  cbn [RomajiCore.dedupe existsb].
  destruct (existsb (RomajiCore.valeq a) seen) eqn:S.
  - rewrite IH. destruct (RomajiCore.valeq x a) eqn:E; [|reflexivity].
    apply valeq_true_iff in E. subst x. rewrite S, !orb_true_r. reflexivity.
  - cbn [existsb]. specialize (IH (a :: seen)). cbn [existsb] in IH.
    destruct (RomajiCore.valeq x a); [reflexivity|].
    cbn [orb] in *. exact IH.
Qed.

Lemma startsWith_char (r : jsstring) (k : N) :
  startsWith r [k] = RomajiCore.valeq (Some [k]) (at_ r 0).
Proof.
  destruct r as [|c r]; [reflexivity|]. simpl.
  rewrite !andb_true_r. apply N.eqb_sym.
Qed.

(** The test of the loop of lines 181-194 on a one-character input is the
    test [matchesPrefix]. *)
Lemma consonant_check (next : jsstring) (k : N) :
  existsb (fun cons => RomajiCore.valeq (Some [k]) cons)
          (RomajiCore.getConsonants next)
  = RomajiCore.matchesPrefix next [k].
Proof.
  unfold RomajiCore.getConsonants, RomajiCore.matchesPrefix.
  pose proof (existsb_dedupe (Some [k]) []
                (map (fun r => at_ r 0) (RomajiCore.romajis next))) as D.
  cbn [existsb] in D. rewrite !orb_false_r in D.
  change (fun cons => RomajiCore.valeq (Some [k]) cons)
    with (RomajiCore.valeq (Some [k])).
  rewrite D. clear D.
  induction (RomajiCore.romajis next) as [|r rs IH]; [reflexivity|].
  cbn [map existsb]. rewrite IH, startsWith_char. reflexivity.
Qed.

(** No spelling of a kana is a prefix of a spelling of a two-kana key that
    starts with this kana. *)
Definition compound_separated (o : object) : bool :=
  forallb (fun kv =>
             match fst kv with
             | [a; _] =>
               forallb (fun rc =>
                          forallb (fun r => negb (startsWith rc r))
                                  (match get o [a] with
                                   | Some rs => rs
                                   | None => []
                                   end))
                       (snd kv)
             | _ => true
             end) o.

Lemma compound_separated_table : compound_separated ROMAJI_TABLE = true.
Proof. vm_compute; reflexivity. Qed.

Lemma compound_not_single (a b : N) (rcs : list jsstring) (rc r : jsstring) :
  get ROMAJI_TABLE [a; b] = Some rcs -> In rc rcs ->
  In r (RomajiCore.romajis [a]) ->
  startsWith rc r = false.
Proof.
  intros G Hrc Hr. apply get_In in G.
  pose proof compound_separated_table as W. unfold compound_separated in W.
  rewrite forallb_forall in W. specialize (W _ G). cbn [fst snd] in W.
  rewrite forallb_forall in W. specialize (W _ Hrc).
  rewrite forallb_forall in W. specialize (W _ Hr).
  apply negb_true_iff in W. exact W.
Qed.

Lemma romajis_nonempty (kana r : jsstring) :
  In r (RomajiCore.romajis kana) -> r <> [].
Proof.
  unfold RomajiCore.romajis. destruct (get ROMAJI_TABLE kana) as [rs|] eqn:G;
    [|intros []].
  intros Hr. apply get_In in G.
  destruct tables_well_formed as [W _]. unfold well_formed in W.
  rewrite forallb_forall in W. specialize (W _ G). cbn [snd] in W.
  destruct rs as [|r0 rs0]; [destruct Hr|].
  rewrite forallb_forall in W. specialize (W _ Hr).
  intros ->. discriminate.
Qed.

Lemma is_prefix_snoc (r buf : jsstring) (k : N) :
  is_prefix r (buf ++ [k]) -> r = buf ++ [k] \/ is_prefix r buf.
Proof.
  intros [t Ht]. destruct t as [|y t] using rev_ind.
  - left. rewrite app_nil_r in Ht. auto.
  - right. rewrite app_assoc in Ht. apply app_inj_tail in Ht.
    destruct Ht as [-> _]. exists t; reflexivity.
Qed.

Lemma find_none_intro {A} (f : A -> bool) (l : list A) :
  (forall x, In x l -> f x = false) -> find f l = None.
Proof.
  induction l as [|a l IH]; intros H; [reflexivity|]. simpl.
  rewrite (H a (or_introl eq_refl)). apply IH. intros x Hx. apply H; right; exact Hx.
Qed.

Lemma includes_false (xs : list jsstring) (v : jsstring) :
  includes xs v = false -> ~ In v xs.
Proof.
  intros H Hin. unfold includes in H.
  assert (E : existsb (fun x => streq x v) xs = true).
  { apply existsb_exists. exists v. split; [exact Hin | apply streq_refl]. }
  rewrite E in H. discriminate.
Qed.

Section CoreBlocks.

Import RomajiCore.

(** What each block of [checkMatch] returns, when it returns. *)

Lemma tryCompound_spec (c : N) (tl input : jsstring) (res : MatchResult) :
  tryCompound (c :: tl) input = Some res ->
  exists d tl' rcs rc,
    tl = d :: tl' /\ get ROMAJI_TABLE [c; d] = Some rcs
    /\ In rc rcs /\ startsWith rc input = true
    /\ (res = result 2 [] \/ (res = result 0 input /\ ~ In input rcs)).
Proof.
  unfold tryCompound. destruct tl as [|d tl']; [discriminate|].
  cbn [length Nat.leb firstn]. unfold matchesAnything, isComplete, romajis.
  destruct (get ROMAJI_TABLE [c; d]) as [rcs|] eqn:G; [|discriminate].
  destruct (existsb _ rcs) eqn:E; [|discriminate].
  apply existsb_exists in E. destruct E as [rc [Hrc E]].
  intros H. exists d, tl', rcs, rc. repeat split; try assumption.
  destruct (includes rcs input) eqn:I; injection H as <-; [auto|].
  right. split; [reflexivity | apply includes_false; exact I].
Qed.

Lemma trySingle_spec (oneChar input : jsstring) (res : MatchResult) :
  trySingle oneChar input = Some res ->
  (exists r, In r (romajis oneChar) /\ startsWith r input = true)
  /\ (res = result 1 []
      \/ (res = result 0 input /\ ~ In input (romajis oneChar))).
Proof.
  unfold trySingle, matchesAnything, isComplete.
  destruct (existsb _ _) eqn:E; [|discriminate].
  apply existsb_exists in E. intros H. split; [exact E|].
  destruct (includes _ _) eqn:I; injection H as <-; [left; reflexivity|].
  right. split; [reflexivity | apply includes_false; exact I].
Qed.

Lemma trySingle_none (oneChar input : jsstring) :
  trySingle oneChar input = None ->
  forall r, In r (romajis oneChar) -> startsWith r input = false.
Proof.
  unfold trySingle, matchesAnything.
  destruct (existsb _ _) eqn:E; [destruct (isComplete _ _); discriminate|].
  intros _ r Hr. destruct (startsWith r input) eqn:S; [|reflexivity].
  assert (X : existsb (fun r => startsWith r input) (romajis oneChar) = true).
  { apply existsb_exists. exists r; auto. }
  rewrite X in E; discriminate.
Qed.

Lemma trySokuon_spec (text oneChar input : jsstring) (res : MatchResult) :
  trySokuon text oneChar input = Some res ->
  oneChar = sokuon /\ 2 <= length text
  /\ (res = result 1 []
      \/ (res = result 0 input
          /\ ~ In input (romajis sokuon)
          /\ (exists r, In r (romajis sokuon) /\ startsWith r input = true)
          /\ existsb (fun cons => valeq (Some input) cons)
                     (getConsonants (str (at_ text 1))) = false)).
Proof.
  unfold trySokuon. destruct (streq oneChar sokuon) eqn:S; [|discriminate].
  apply streq_true_iff in S. destruct (2 <=? length text) eqn:L; [|discriminate].
  apply Nat.leb_le in L. cbv zeta.
  destruct (existsb _ (getConsonants _)) eqn:C.
  - intros [= <-]. auto.
  - unfold matchesAnything, isComplete.
    destruct (existsb _ (romajis sokuon)) eqn:E; [|discriminate].
    apply existsb_exists in E.
    destruct (includes _ _) eqn:I; intros [= <-]; [auto|].
    repeat split; try assumption. right.
    repeat split; try assumption. apply includes_false; exact I.
Qed.

Lemma trySokuon_none (text input : jsstring) :
  trySokuon text sokuon input = None -> 2 <= length text ->
  existsb (fun cons => valeq (Some input) cons)
          (getConsonants (str (at_ text 1))) = false
  /\ forall r, In r (romajis sokuon) -> startsWith r input = false.
Proof.
  unfold trySokuon. rewrite streq_refl. intros H L.
  apply Nat.leb_le in L. rewrite L in H. cbv zeta in H.
  destruct (existsb _ (getConsonants _)); [discriminate|].
  split; [reflexivity|].
  unfold matchesAnything in H.
  destruct (existsb _ (romajis sokuon)) eqn:E;
    [destruct (isComplete _ _); discriminate|].
  intros r Hr. destruct (startsWith r input) eqn:S; [|reflexivity].
  assert (X : existsb (fun r => startsWith r input) (romajis sokuon) = true).
  { apply existsb_exists. exists r; auto. }
  rewrite X in E; discriminate.
Qed.

(** The left-over loop finds nothing after one more key, when it found
    nothing before and the new input is not itself a spelling. *)
Lemma tryOverflow_step (oneChar buf : jsstring) (k : N) :
  buf = [] \/ tryOverflow oneChar buf = None ->
  (forall r, In r (romajis oneChar) -> r <> buf ++ [k]) ->
  tryOverflow oneChar (buf ++ [k]) = None.
Proof.
  intros Inv New. unfold tryOverflow, getPossibleRomaji.
  rewrite find_none_intro; [reflexivity|].
  intros r Hr. destruct (startsWith (buf ++ [k]) r) eqn:S; [|reflexivity].
  exfalso. apply startsWith_iff in S. apply is_prefix_snoc in S.
  destruct S as [S|S]; [exact (New r Hr S)|].
  destruct Inv as [->|Inv].
  - destruct S as [t Ht]. symmetry in Ht. apply app_eq_nil in Ht.
    destruct Ht as [-> _]. exact (romajis_nonempty _ _ Hr eq_refl).
  - unfold tryOverflow, getPossibleRomaji in Inv.
    destruct (find _ _) eqn:Fd; [discriminate|].
    apply startsWith_iff in S.
    rewrite (find_none _ _ Fd r Hr) in S. discriminate.
Qed.

Lemma trySokuonNext_snoc (text oneChar : jsstring) (b : N) (bs : jsstring) (k : N) :
  trySokuonNext text oneChar ((b :: bs) ++ [k]) = None
  <-> trySokuonNext text oneChar (b :: bs) = None.
Proof.
  unfold trySokuonNext. cbn [app at_ nth_error str].
  destruct (streq oneChar sokuon && (2 <=? length text)); [|tauto].
  destruct (matchesPrefix _ _); split; (discriminate || reflexivity).
Qed.

Lemma trySokuonNext_first (text oneChar : jsstring) (k : N) :
  existsb (fun cons => valeq (Some [k]) cons)
          (getConsonants (str (at_ text 1))) = false ->
  trySokuonNext text oneChar [k] = None.
Proof.
  intros C. unfold trySokuonNext. cbn [at_ nth_error str].
  rewrite consonant_check in C. rewrite C.
  destruct (streq oneChar sokuon && (2 <=? length text)); reflexivity.
Qed.

Lemma trySokuonNext_other (text oneChar input : jsstring) :
  oneChar <> sokuon -> trySokuonNext text oneChar input = None.
Proof.
  intros H. unfold trySokuonNext.
  destruct (streq oneChar sokuon) eqn:S; [|reflexivity].
  apply streq_true_iff in S. contradiction.
Qed.

End CoreBlocks.

Section CoreInvariant.

Import RomajiCore.

(** The buffer holds no complete spelling of the kana at the head of [text]
    and, at a sokuon, does not start with a first letter of the next kana:
    the two blocks that leave characters over return nothing on it. *)
Definition settled (text buf : jsstring) : Prop :=
  tryOverflow (str (at_ text 0)) buf = None
  /\ trySokuonNext text (str (at_ text 0)) buf = None.

(** The buffer is a proper prefix of a spelling of the two-kana or of the
    one-kana unit at the head of [text]. *)
Definition in_progress (text buf : jsstring) : Prop :=
  exists r,
    In r (romajis (firstn 2 text) ++ romajis (str (at_ text 0)))
    /\ is_prefix buf r /\ r <> buf.

Definition good (text buf : jsstring) : Prop :=
  buf = [] \/ (settled text buf /\ in_progress text buf).

Lemma good_overflow (text buf : jsstring) :
  good text buf -> buf = [] \/ tryOverflow (str (at_ text 0)) buf = None.
Proof. intros [H|[[H _] _]]; auto. Qed.

Lemma trySokuonNext_step (c : N) (tl buf : jsstring) (k : N) :
  good (c :: tl) buf ->
  ([c] = sokuon -> 2 <= length (c :: tl) ->
   existsb (fun cons => valeq (Some (buf ++ [k])) cons)
           (getConsonants (str (at_ (c :: tl) 1))) = false) ->
  trySokuonNext (c :: tl) [c] (buf ++ [k]) = None.
Proof.
  intros G C.
  destruct (streq [c] sokuon && (2 <=? length (c :: tl))) eqn:Cond.
  - apply andb_prop in Cond. destruct Cond as [S L].
    apply streq_true_iff in S. apply Nat.leb_le in L. specialize (C S L).
    destruct buf as [|b bs].
    + apply trySokuonNext_first. exact C.
    + apply trySokuonNext_snoc. destruct G as [G|[[_ G] _]]; [discriminate|].
      exact G.
  - unfold trySokuonNext. rewrite Cond. reflexivity.
Qed.

(** One more key on a good buffer: the key is rejected, or it completes a
    unit and leaves nothing over, or it extends the buffer, which stays
    good. *)
Lemma checkMatch_single_key (text buf : jsstring) (k : N) :
  good text buf ->
  checkMatch text (buf ++ [k]) = None
  \/ (exists n, (n = 1 \/ n = 2) /\ n <= length text
                /\ checkMatch text (buf ++ [k]) = Some (result n []))
  \/ (checkMatch text (buf ++ [k]) = Some (result 0 (buf ++ [k]))
      /\ settled text (buf ++ [k]) /\ in_progress text (buf ++ [k])).
Proof.
  intros G. destruct text as [|c tl]; [left; reflexivity|].
  pose proof (good_overflow _ _ G) as GO. cbn [at_ nth_error str] in GO.
  unfold checkMatch, settled, in_progress.
  destruct (tryCompound (c :: tl) (buf ++ [k])) as [res|] eqn:TC.
  { apply tryCompound_spec in TC.
    destruct TC as (d & tl' & rcs & rc & -> & Gt & Hrc & S & [->|[-> Nin]]).
    - right; left. exists 2. cbn [orelse length]. repeat split; [right; reflexivity | lia].
    - right; right. cbn [orelse at_ nth_error str firstn].
      assert (K : get ROMAJI_TABLE [c; d] <> None) by (rewrite Gt; discriminate).
      destruct compound_heads_tables as [WR _].
      destruct (compound_head_known _ _ c d WR K) as (_ & NS & _).
      split; [reflexivity|]. split; [split|].
      + apply tryOverflow_step; [exact GO|]. intros r Hr ->.
        rewrite (compound_not_single c d rcs rc _ Gt Hrc Hr) in S. discriminate.
      + apply trySokuonNext_other; exact NS.
      + exists rc. split; [|split].
        * apply in_or_app. left. unfold romajis. rewrite Gt. exact Hrc.
        * apply startsWith_iff; exact S.
        * intros ->. contradiction. }
  cbn [orelse length Nat.leb at_ nth_error str].
  destruct (trySokuon (c :: tl) [c] (buf ++ [k])) as [res|] eqn:TS.
  { apply trySokuon_spec in TS.
    destruct TS as (E & L & [->|(-> & Nin & (r & Hr & S) & C)]).
    - right; left. exists 1. cbn [orelse length]. repeat split; [left; reflexivity | lia].
    - right; right. cbn [orelse]. split; [reflexivity|]. split; [split|].
      + apply tryOverflow_step; [exact GO|]. rewrite E. intros r' Hr' ->.
        contradiction.
      + apply trySokuonNext_step; [exact G|]. intros _ _. exact C.
      + exists r. split; [|split].
        * apply in_or_app. right. rewrite E. exact Hr.
        * apply startsWith_iff; exact S.
        * intros ->. contradiction. }
  assert (C : [c] = sokuon -> 2 <= length (c :: tl) ->
              existsb (fun cons => valeq (Some (buf ++ [k])) cons)
                      (getConsonants (str (at_ (c :: tl) 1))) = false).
  { intros E L. rewrite E in TS. exact (proj1 (trySokuon_none _ _ TS L)). }
  pose proof (trySokuonNext_step c tl buf k G C) as SN.
  cbn [orelse].
  destruct (trySingle [c] (buf ++ [k])) as [res|] eqn:T1.
  { apply trySingle_spec in T1.
    destruct T1 as ((r & Hr & S) & [->|[-> Nin]]).
    - right; left. exists 1. cbn [orelse length]. repeat split; [left; reflexivity | lia].
    - right; right. cbn [orelse]. split; [reflexivity|]. split; [split|].
      + apply tryOverflow_step; [exact GO|]. intros r' Hr' ->. contradiction.
      + exact SN.
      + exists r. split; [|split].
        * apply in_or_app. right. exact Hr.
        * apply startsWith_iff; exact S.
        * intros ->. contradiction. }
  left. cbn [orelse].
  assert (TO : tryOverflow [c] (buf ++ [k]) = None).
  { apply tryOverflow_step; [exact GO|]. intros r Hr ->.
    pose proof (trySingle_none _ _ T1 _ Hr) as X.
    rewrite startsWith_refl in X. discriminate. }
  rewrite TO, SN, (tryNasal_shadowed _ _ TO). reflexivity.
Qed.

End CoreInvariant.

Section CoreRuns.

Import RomajiCore.

(** The invariant of a run of [input] with single-character keys. *)
Definition core_good (s : t) : Prop :=
  currentIndex s <= length (kanaText s)
  /\ good (skipn (currentIndex s) (kanaText s)) (currentInputBuffer s).

(** The three ways a call of [input] can end. *)
Inductive core_outcome (s : t) (key : jsstring) : bool -> t -> Prop :=
| CoreRejected : core_outcome s key false s
| CoreExtended :
    core_outcome s key true
      (mk (kanaText s) (currentIndex s) (currentInputBuffer s ++ key))
| CoreAdvanced n :
    n = 1 \/ n = 2 -> currentIndex s + n <= length (kanaText s) ->
    core_outcome s key true (mk (kanaText s) (currentIndex s + n) []).

Lemma core_new_good (kana : jsstring) : core_good (new kana).
Proof. split; [simpl; lia | left; reflexivity]. Qed.

Lemma input_single_key (s : t) (k : N) :
  core_good s ->
  core_outcome s [k] (fst (input s [k])) (snd (input s [k]))
  /\ core_good (snd (input s [k])).
Proof.
  intros [B G]. unfold input.
  destruct (isFinished s); [split; [constructor | split; assumption]|].
  cbv zeta.
  destruct (checkMatch_single_key _ _ k G) as [E|[(n & Hn & Hl & E)|(E & St & Pr)]];
    rewrite E.
  - split; [constructor | split; assumption].
  - rewrite length_skipn in Hl.
    assert (Hp : (0 <? n) = true) by (apply Nat.ltb_lt; lia).
    cbn [completedKanaCount remainingBuffer].
    rewrite Hp. cbn [fst snd]. split.
    + apply CoreAdvanced; [exact Hn | lia].
    + split; cbn [kanaText currentIndex currentInputBuffer]; [lia|].
      left; reflexivity.
  - cbn [completedKanaCount remainingBuffer Nat.ltb Nat.leb fst snd]. split.
    + apply CoreExtended.
    + split; cbn [kanaText currentIndex currentInputBuffer]; [exact B|].
      right; split; assumption.
Qed.

Lemma inputs_cons (s : t) (k : jsstring) (ks : list jsstring) :
  inputs s (k :: ks)
  = (fst (input s k) :: fst (inputs (snd (input s k)) ks),
     snd (inputs (snd (input s k)) ks)).
Proof.
  simpl. destruct (input s k) as [b s']. simpl.
  destruct (inputs s' ks); reflexivity.
Qed.

Lemma inputs_app (s : t) (pre post : list jsstring) :
  snd (inputs s (pre ++ post)) = snd (inputs (snd (inputs s pre)) post).
Proof.
  revert s; induction pre as [|k pre IH]; intros s; [reflexivity|].
  rewrite <- app_comm_cons, !inputs_cons. cbn [snd]. apply IH.
Qed.

Lemma inputs_single_good (s : t) (keys : list jsstring) :
  Forall (fun k => length k = 1) keys ->
  core_good s -> core_good (snd (inputs s keys)).
Proof.
  intros H; revert s; induction H as [|k ks L _ IH]; intros s G; [exact G|].
  rewrite inputs_cons; cbn [snd]. apply IH.
  destruct k as [|c [|]]; try discriminate.
  apply input_single_key; exact G.
Qed.

End CoreRuns.

(** * Further properties of RomajiCore *)

Section CoreBounds.

Import RomajiCore.

Lemma checkMatch_count (text input : jsstring) (res : MatchResult) :
  checkMatch text input = Some res ->
  completedKanaCount res <= 2 /\ completedKanaCount res <= length text.
Proof.
  unfold checkMatch, orelse.
  destruct (tryCompound text input) as [r0|] eqn:TC.
  { intros [= <-]. unfold tryCompound in TC.
    destruct (2 <=? length text) eqn:L; [|discriminate].
    apply Nat.leb_le in L.
    destruct (matchesAnything _ _); [|discriminate].
    destruct (isComplete _ _); injection TC as <-; simpl; lia. }
  destruct (1 <=? length text) eqn:L1; [|discriminate].
  apply Nat.leb_le in L1. cbv zeta.
  destruct (trySokuon _ _ _) as [r1|] eqn:TS.
  { intros [= <-]. unfold trySokuon in TS.
    destruct (streq _ _); [|discriminate].
    destruct (2 <=? length text); [|discriminate]. cbv zeta in TS.
    destruct (existsb _ _); [injection TS as <-; simpl; lia|].
    destruct (matchesAnything _ _); [|discriminate].
    destruct (isComplete _ _); injection TS as <-; simpl; lia. }
  destruct (trySingle _ _) as [r2|] eqn:T1.
  { intros [= <-]. unfold trySingle in T1.
    destruct (matchesAnything _ _); [|discriminate].
    destruct (isComplete _ _); injection T1 as <-; simpl; lia. }
  destruct (tryOverflow _ _) as [r3|] eqn:TO.
  { intros [= <-]. unfold tryOverflow in TO.
    destruct (find _ _); [|discriminate]. injection TO as <-; simpl; lia. }
  destruct (trySokuonNext _ _ _) as [r4|] eqn:TN.
  { intros [= <-]. unfold trySokuonNext in TN.
    destruct (_ && _); [|discriminate]. cbv zeta in TN.
    destruct (matchesPrefix _ _); [|discriminate].
    injection TN as <-; simpl; lia. }
  unfold tryNasal.
  destruct (streq _ _); [|discriminate].
  destruct (startsWith _ _); [|discriminate]. cbv zeta.
  destruct (0 <? _); [|discriminate].
  destruct (negb _); [|discriminate].
  intros [= <-]; simpl; lia.
Qed.

Lemma input_cursor (s : t) (key : jsstring) :
  kanaText (snd (input s key)) = kanaText s
  /\ currentIndex s <= currentIndex (snd (input s key))
  /\ currentIndex (snd (input s key)) <= currentIndex s + 2
  /\ (currentIndex s <= length (kanaText s) ->
      currentIndex (snd (input s key)) <= length (kanaText s)).
Proof.
  unfold input. destruct (isFinished s); [simpl; repeat split; lia|].
  cbv zeta. destruct (checkMatch _ _) as [res|] eqn:E;
    [|simpl; repeat split; lia].
  apply checkMatch_count in E. rewrite length_skipn in E.
  destruct (0 <? completedKanaCount res); simpl; repeat split; lia.
Qed.

Lemma inputs_cursor (s : t) (keys : list jsstring) :
  kanaText (snd (inputs s keys)) = kanaText s
  /\ currentIndex s <= currentIndex (snd (inputs s keys))
  /\ (currentIndex s <= length (kanaText s) ->
      currentIndex (snd (inputs s keys)) <= length (kanaText s)).
Proof.
  revert s; induction keys as [|k ks IH]; intros s; [simpl; repeat split; lia|].
  rewrite inputs_cons; cbn [snd].
  destruct (input_cursor s k) as (T & M & _ & B).
  destruct (IH (snd (input s k))) as (T' & M' & B').
  rewrite T in *. repeat split; [congruence | lia | intros H; auto].
Qed.

End CoreBounds.

(** X3.  Whatever strings are passed to [input], the target text is never
    changed, the cursor never moves backwards, and from a fresh core it never
    passes the end of the text. *)
Theorem core_cursor_monotone_bounded
    (s : RomajiCore.t) (kana : jsstring) (keys : list jsstring) :
  RomajiCore.currentIndex s
  <= RomajiCore.currentIndex (snd (RomajiCore.inputs s keys))
  /\ RomajiCore.kanaText (snd (RomajiCore.inputs s keys)) = RomajiCore.kanaText s
  /\ RomajiCore.currentIndex
       (snd (RomajiCore.inputs (RomajiCore.new kana) keys)) <= length kana.
Proof.
  destruct (inputs_cursor s keys) as (T & M & _).
  destruct (inputs_cursor (RomajiCore.new kana) keys) as (_ & _ & B).
  repeat split; [exact M | exact T | apply B; simpl; lia].
Qed.

(** X1.  After any single-character keys on a fresh core, one more
    single-character key has one of three outcomes: it is rejected and the
    state is unchanged; it is accepted and appended to the buffer with the
    cursor in place; or it is accepted, the cursor advances by one or two
    kana and the buffer is emptied.  No typed character is ever carried over
    to the next unit. *)
Theorem core_single_keys_no_leftover
    (kana : jsstring) (pre : list jsstring) (k : N) :
  Forall (fun key => length key = 1) pre ->
  let s := snd (RomajiCore.inputs (RomajiCore.new kana) pre) in
  let b := fst (RomajiCore.input s [k]) in
  let s' := snd (RomajiCore.input s [k]) in
  (b = false /\ s' = s)
  \/ (b = true
      /\ s' = RomajiCore.mk (RomajiCore.kanaText s) (RomajiCore.currentIndex s)
                            (RomajiCore.currentInputBuffer s ++ [k]))
  \/ (b = true
      /\ exists n, (n = 1 \/ n = 2)
           /\ RomajiCore.currentIndex s + n <= length (RomajiCore.kanaText s)
           /\ s' = RomajiCore.mk (RomajiCore.kanaText s)
                                 (RomajiCore.currentIndex s + n) []).
Proof.
  intros H s b s'.
  assert (G : core_good s)
    by (apply inputs_single_good; [exact H | apply core_new_good]).
  destruct (input_single_key s k G) as [O _]. fold b s' in O.
  destruct O as [| |n Hn Hl]; [left | right; left | right; right]; auto.
  split; [reflexivity|]. exists n; auto.
Qed.

Lemma core_single_keys_no_leftover_witness :
  let s := snd (RomajiCore.inputs (RomajiCore.new (utf16 "っと")) [utf16 "t"]) in
  (fst (RomajiCore.input s [116%N]) = false /\ snd (RomajiCore.input s [116%N]) = s)
  \/ (fst (RomajiCore.input s [116%N]) = true
      /\ snd (RomajiCore.input s [116%N])
         = RomajiCore.mk (RomajiCore.kanaText s) (RomajiCore.currentIndex s)
                         (RomajiCore.currentInputBuffer s ++ [116%N]))
  \/ (fst (RomajiCore.input s [116%N]) = true
      /\ exists n, (n = 1 \/ n = 2)
           /\ RomajiCore.currentIndex s + n <= length (RomajiCore.kanaText s)
           /\ snd (RomajiCore.input s [116%N])
              = RomajiCore.mk (RomajiCore.kanaText s)
                              (RomajiCore.currentIndex s + n) []).
Proof.
  apply (core_single_keys_no_leftover (utf16 "っと") [utf16 "t"] 116%N).
  repeat constructor.
Defined.

(** X2.  After any single-character keys on a fresh core, the buffer is
    empty or is a proper prefix of a spelling of the two-kana key or of the
    one-kana key at the cursor. *)
Theorem core_buffer_invariant (kana : jsstring) (keys : list jsstring) :
  Forall (fun key => length key = 1) keys ->
  let s := snd (RomajiCore.inputs (RomajiCore.new kana) keys) in
  let remaining := skipn (RomajiCore.currentIndex s) (RomajiCore.kanaText s) in
  RomajiCore.currentInputBuffer s = []
  \/ exists r,
       In r (RomajiCore.romajis (firstn 2 remaining)
             ++ RomajiCore.romajis (str (at_ remaining 0)))
       /\ is_prefix (RomajiCore.currentInputBuffer s) r
       /\ r <> RomajiCore.currentInputBuffer s.
Proof.
  intros H s remaining.
  assert (G : core_good s)
    by (apply inputs_single_good; [exact H | apply core_new_good]).
  destruct G as [_ [G|[_ G]]]; [left; exact G | right; exact G].
Qed.

Lemma core_buffer_invariant_witness :
  let s := snd (RomajiCore.inputs (RomajiCore.new (utf16 "しゃ"))
                  [utf16 "s"; utf16 "h"]) in
  RomajiCore.currentInputBuffer s = utf16 "sh"
  /\ (RomajiCore.currentInputBuffer s = []
      \/ exists r,
           In r (RomajiCore.romajis
                   (firstn 2 (skipn (RomajiCore.currentIndex s)
                                    (RomajiCore.kanaText s)))
                 ++ RomajiCore.romajis
                      (str (at_ (skipn (RomajiCore.currentIndex s)
                                       (RomajiCore.kanaText s)) 0)))
           /\ is_prefix (RomajiCore.currentInputBuffer s) r
           /\ r <> RomajiCore.currentInputBuffer s).
Proof.
  split; [reflexivity|].
  apply (core_buffer_invariant (utf16 "しゃ") [utf16 "s"; utf16 "h"]).
  repeat constructor.
Defined.

Lemma skipn_nth_error {A} (l : list A) (i : nat) (x : A) :
  nth_error l i = Some x -> skipn i l = x :: skipn (S i) l.
Proof.
  revert l; induction i as [|i IH]; intros [|a l]; simpl; try discriminate.
  - intros [= ->]. reflexivity.
  - intros H. apply IH in H. exact H.
Qed.

Lemma isFinished_false (s : RomajiCore.t) (c : N) :
  nth_error (RomajiCore.kanaText s) (RomajiCore.currentIndex s) = Some c ->
  RomajiCore.isFinished s = false.
Proof.
  intros H. unfold RomajiCore.isFinished. apply Nat.leb_gt.
  apply nth_error_Some. rewrite H. discriminate.
Qed.

Lemma tryCompound_sokuon (tl input : jsstring) :
  RomajiCore.tryCompound (RomajiCore.sokuon ++ tl) input = None.
Proof.
  destruct compound_heads_tables as [WR _].
  unfold RomajiCore.tryCompound.
  destruct (2 <=? length (RomajiCore.sokuon ++ tl)) eqn:L; [|reflexivity].
  apply Nat.leb_le in L.
  destruct (firstn_2_cons 12387%N tl L) as [d Hd].
  change (RomajiCore.sokuon ++ tl) with (12387%N :: tl). rewrite Hd.
  unfold RomajiCore.matchesAnything, RomajiCore.romajis.
  destruct (get ROMAJI_TABLE [12387%N; d]) eqn:E; [|reflexivity].
  assert (K : get ROMAJI_TABLE [12387%N; d] <> None) by (rewrite E; discriminate).
  destruct (compound_head_known _ _ _ d WR K) as (_ & K2 & _).
  exfalso; apply K2; reflexivity.
Qed.

(** X4.  The guarded block for a single [n] (lines 272-285) is dead code:
    for every text and input, [checkMatch] returns what it returns without
    that block. *)
Theorem nasal_guard_unreachable (text input : jsstring) :
  RomajiCore.checkMatch text input
  = (RomajiCore.tryCompound text input
     <|> (if 1 <=? length text then
            RomajiCore.trySokuon text (str (at_ text 0)) input
            <|> RomajiCore.trySingle (str (at_ text 0)) input
            <|> RomajiCore.tryOverflow (str (at_ text 0)) input
            <|> RomajiCore.trySokuonNext text (str (at_ text 0)) input
          else None)).
Proof.
  unfold RomajiCore.checkMatch.
  destruct (RomajiCore.tryCompound text input); [reflexivity|].
  cbn [orelse]. destruct (1 <=? length text); [|reflexivity]. cbv zeta.
  destruct (RomajiCore.trySokuon _ _ _); [reflexivity|]. cbn [orelse].
  destruct (RomajiCore.trySingle _ _); [reflexivity|]. cbn [orelse].
  destruct (RomajiCore.tryOverflow _ _) eqn:TO; [reflexivity|]. cbn [orelse].
  destruct (RomajiCore.trySokuonNext _ _ _); [reflexivity|]. cbn [orelse].
  apply tryNasal_shadowed; exact TO.
Qed.

Lemma sokuon_first_letter_step
    (s : RomajiCore.t) (d k : N) (rest : jsstring) :
  nth_error (RomajiCore.kanaText s) (RomajiCore.currentIndex s) = Some 12387%N ->
  nth_error (RomajiCore.kanaText s) (S (RomajiCore.currentIndex s)) = Some d ->
  RomajiCore.currentInputBuffer s = [] ->
  In (k :: rest) (RomajiCore.romajis [d]) ->
  RomajiCore.input s [k]
  = (true, RomajiCore.mk (RomajiCore.kanaText s)
                         (RomajiCore.currentIndex s + 1) []).
Proof.
  intros H0 H1 B Hr. unfold RomajiCore.input.
  rewrite (isFinished_false s _ H0), B. cbv zeta. cbn [app].
  rewrite (skipn_nth_error _ _ _ H0), (skipn_nth_error _ _ _ H1).
  set (tl := skipn (S (S (RomajiCore.currentIndex s))) (RomajiCore.kanaText s)).
  assert (E : RomajiCore.checkMatch (12387%N :: d :: tl) [k]
              = Some (RomajiCore.result 1 [])).
  { unfold RomajiCore.checkMatch.
    change (12387%N :: d :: tl) with (RomajiCore.sokuon ++ d :: tl).
    rewrite tryCompound_sokuon.
    change (RomajiCore.sokuon ++ d :: tl) with (12387%N :: d :: tl).
    cbn [orelse length Nat.leb at_ nth_error str].
    unfold RomajiCore.trySokuon.
    change (streq [12387%N] RomajiCore.sokuon) with true.
    cbn [length Nat.leb at_ nth_error str]. cbv zeta.
    change (fun cons => RomajiCore.valeq (Some [k]) cons)
      with (RomajiCore.valeq (Some [k])).
    pose proof (consonant_check [d] k) as C. cbv beta in C.
    change (fun cons => RomajiCore.valeq (Some [k]) cons)
      with (RomajiCore.valeq (Some [k])) in C.
    rewrite C. unfold RomajiCore.matchesPrefix.
    assert (X : existsb (fun r => startsWith r [k]) (RomajiCore.romajis [d]) = true).
    { apply existsb_exists. exists (k :: rest). split; [exact Hr|].
      simpl. rewrite N.eqb_refl. reflexivity. }
    rewrite X. reflexivity. }
  rewrite E. reflexivity.
Qed.

(** X5.  At a sokuon followed by a kana, with an empty buffer, a key that is
    the first letter of any spelling of the following kana is accepted, moves
    the cursor past the sokuon only and leaves the buffer empty: the letter
    is not counted toward the following kana. *)
Theorem sokuon_first_letter
    (s : RomajiCore.t) (d k : N) (rest : jsstring) :
  nth_error (RomajiCore.kanaText s) (RomajiCore.currentIndex s) = Some 12387%N ->
  nth_error (RomajiCore.kanaText s) (S (RomajiCore.currentIndex s)) = Some d ->
  RomajiCore.currentInputBuffer s = [] ->
  In (k :: rest) (RomajiCore.romajis [d]) ->
  RomajiCore.input s [k]
  = (true, RomajiCore.mk (RomajiCore.kanaText s)
                         (RomajiCore.currentIndex s + 1) []).
Proof. exact (sokuon_first_letter_step s d k rest). Qed.

Lemma sokuon_first_letter_witness :
  RomajiCore.input (RomajiCore.new (utf16 "っち")) (utf16 "c")
  = (true, RomajiCore.mk (utf16 "っち") 1 []).
Proof.
  apply (sokuon_first_letter (RomajiCore.new (utf16 "っち"))
           12385%N 99%N (utf16 "hi")); try reflexivity.
  simpl. auto.
Defined.

(** ** Typing the hint *)

(** In every entry of the table, no spelling is a proper prefix of the
    first, canonical, spelling. *)
Definition canonical_minimal (o : object) : bool :=
  forallb (fun kv =>
             match snd kv with
             | [] => true
             | r0 :: rs =>
               forallb (fun r => negb (startsWith r0 r) || streq r r0) (r0 :: rs)
             end) o.

(** No spelling of a two-kana key is a prefix of a spelling of its first
    kana. *)
Definition single_separated (o : object) : bool :=
  forallb (fun kv =>
             match fst kv with
             | [a; _] =>
               forallb (fun rc =>
                          forallb (fun r => negb (startsWith r rc))
                                  (match get o [a] with
                                   | Some rs => rs
                                   | None => []
                                   end))
                       (snd kv)
             | _ => true
             end) o.

Lemma canonical_tables :
  canonical_minimal ROMAJI_TABLE = true /\ single_separated ROMAJI_TABLE = true.
Proof. split; vm_compute; reflexivity. Qed.

Lemma canonical_minimal_use
    (key r0 : jsstring) (others : list jsstring) (x : jsstring) :
  get ROMAJI_TABLE key = Some (r0 :: others) ->
  In x (r0 :: others) -> startsWith r0 x = true -> x = r0.
Proof.
  intros G Hx S. apply get_In in G.
  destruct canonical_tables as [W _]. unfold canonical_minimal in W.
  rewrite forallb_forall in W. specialize (W _ G). cbn [snd] in W.
  rewrite forallb_forall in W. specialize (W _ Hx).
  rewrite S in W. cbn [negb orb] in W. apply streq_true_iff; exact W.
Qed.

Lemma single_separated_use
    (a b : N) (rcs : list jsstring) (rc r : jsstring) :
  get ROMAJI_TABLE [a; b] = Some rcs -> In rc rcs ->
  In r (RomajiCore.romajis [a]) ->
  startsWith r rc = false.
Proof.
  intros G Hrc Hr. apply get_In in G.
  destruct canonical_tables as [_ W]. unfold single_separated in W.
  rewrite forallb_forall in W. specialize (W _ G). cbn [fst snd] in W.
  rewrite forallb_forall in W. specialize (W _ Hrc).
  rewrite forallb_forall in W. specialize (W _ Hr).
  apply negb_true_iff in W. exact W.
Qed.

Section Typing.

Import RomajiCore.

(** The keys that type a word, one character each. *)
Definition chars (w : jsstring) : list jsstring := map (fun c => [c]) w.

Definition all_true (w : jsstring) : list bool := map (fun _ => true) w.

Lemma startsWith_app (p q : jsstring) : startsWith (p ++ q) p = true.
Proof. apply startsWith_iff. exists q; reflexivity. Qed.

Lemma includes_true (xs : list jsstring) (v : jsstring) :
  In v xs -> includes xs v = true.
Proof.
  intros H. apply existsb_exists. exists v. split; [exact H | apply streq_refl].
Qed.

Lemma includes_iff_false (xs : list jsstring) (v : jsstring) :
  ~ In v xs -> includes xs v = false.
Proof.
  intros H. destruct (includes xs v) eqn:E; [|reflexivity].
  apply existsb_exists in E. destruct E as [x [Hx E]].
  apply streq_true_iff in E. subst x. contradiction.
Qed.

Lemma existsb_prefix (rs : list jsstring) (r x : jsstring) :
  In r rs -> startsWith r x = true ->
  existsb (fun r => startsWith r x) rs = true.
Proof. intros H S. apply existsb_exists. exists r; auto. Qed.

(** Typing a word whose proper prefixes extend the buffer and which
    completes [n] kana. *)
Lemma type_word (text : jsstring) (idx n : nat) (w : jsstring) :
  idx < length text -> 0 < n ->
  (forall p k q, w = p ++ k :: q -> q <> [] ->
     checkMatch (skipn idx text) (p ++ [k]) = Some (result 0 (p ++ [k]))) ->
  checkMatch (skipn idx text) w = Some (result n []) ->
  forall p rest, w = p ++ rest -> rest <> [] ->
    inputs (mk text idx p) (chars rest) = (all_true rest, mk text (idx + n) []).
Proof.
  intros Hi Hn Part Full p rest; revert p.
  assert (F : forall p, isFinished (mk text idx p) = false).
  { intros p. unfold isFinished. simpl. apply Nat.leb_gt. exact Hi. }
  induction rest as [|k q IH]; intros p E Hne;
    [exfalso; apply Hne; reflexivity|].
  unfold chars, all_true. cbn [map]. rewrite inputs_cons.
  unfold input at 1 2 3. rewrite F. cbv zeta.
  cbn [kanaText currentIndex currentInputBuffer].
  destruct q as [|k' q'].
  - rewrite <- E, Full. apply Nat.ltb_lt in Hn.
    cbn [completedKanaCount remainingBuffer]. rewrite Hn. reflexivity.
  - rewrite (Part p k (k' :: q') E) by discriminate.
    cbn [completedKanaCount remainingBuffer Nat.ltb Nat.leb fst snd].
    assert (E' : w = (p ++ [k]) ++ k' :: q')
      by (rewrite <- app_assoc; exact E).
    specialize (IH (p ++ [k]) E').
    unfold chars, all_true in IH. rewrite IH by discriminate. reflexivity.
Qed.

End Typing.

Section Canonical.

Import RomajiCore.

Lemma tryCompound_complete (c : N) (tl input : jsstring) :
  tryCompound (c :: tl) input = Some (result 2 []) ->
  exists d tl' rcs,
    tl = d :: tl' /\ get ROMAJI_TABLE [c; d] = Some rcs /\ In input rcs.
Proof.
  unfold tryCompound. destruct tl as [|d tl']; [discriminate|].
  cbn [length Nat.leb firstn]. unfold matchesAnything, isComplete, romajis.
  destruct (get ROMAJI_TABLE [c; d]) as [rcs|] eqn:G; [|discriminate].
  destruct (existsb _ rcs); [|discriminate].
  destruct (includes rcs input) eqn:I; [|discriminate]. intros _.
  exists d, tl', rcs. split; [reflexivity|]. split; [exact G|].
  apply existsb_exists in I. destruct I as [x [Hx E]].
  apply streq_true_iff in E. subst x. exact Hx.
Qed.

Lemma proper_prefix_neq (p : jsstring) (k : N) (q : jsstring) :
  q <> [] -> p ++ [k] <> p ++ k :: q.
Proof.
  intros Hq E. apply app_inv_head in E. injection E as E.
  symmetry in E. contradiction.
Qed.

Lemma trySokuon_other (text oneChar input : jsstring) :
  oneChar <> sokuon -> trySokuon text oneChar input = None.
Proof.
  intros H. unfold trySokuon. destruct (streq oneChar sokuon) eqn:S; [|reflexivity].
  apply streq_true_iff in S. contradiction.
Qed.

(** A proper prefix of the canonical spelling of the kana at the head of the
    text extends the buffer. *)
Lemma canonical_single_partial
    (c : N) (tl r0 : jsstring) (others : list jsstring)
    (p : jsstring) (k : N) (q : jsstring) :
  get ROMAJI_TABLE [c] = Some (r0 :: others) -> [c] <> sokuon ->
  r0 = p ++ k :: q -> q <> [] ->
  checkMatch (c :: tl) (p ++ [k]) = Some (result 0 (p ++ [k])).
Proof.
  intros G NS E Hq.
  assert (R : romajis [c] = r0 :: others) by (unfold romajis; rewrite G; reflexivity).
  assert (P : startsWith r0 (p ++ [k]) = true).
  { apply startsWith_iff. exists q. rewrite <- app_assoc. exact E. }
  assert (NC : ~ In (p ++ [k]) (r0 :: others)).
  { intros Hin. pose proof (canonical_minimal_use _ _ _ _ G Hin P) as X.
    rewrite E in X. exact (proper_prefix_neq p k q Hq X). }
  unfold checkMatch.
  destruct (tryCompound (c :: tl) (p ++ [k])) as [res|] eqn:TC.
  - pose proof TC as TC'. apply tryCompound_spec in TC'.
    destruct TC' as (d & tl' & rcs & rc & -> & Gt & Hrc & S & [->|[-> _]]);
      [|reflexivity].
    apply tryCompound_complete in TC.
    destruct TC as (d' & tl'' & rcs' & [= <- <-] & Gt' & Hin).
    assert (Hr : In r0 (romajis [c])) by (rewrite R; left; reflexivity).
    rewrite (single_separated_use c d rcs' _ r0 Gt' Hin Hr) in P. discriminate.
  - cbn [orelse length Nat.leb at_ nth_error str].
    rewrite (trySokuon_other _ _ _ NS). cbn [orelse].
    unfold trySingle, matchesAnything, isComplete. rewrite R.
    rewrite (existsb_prefix (r0 :: others) r0 _ (or_introl eq_refl) P).
    rewrite (includes_iff_false _ _ NC). reflexivity.
Qed.

(** The canonical spelling of the kana at the head of the text completes
    one kana. *)
Lemma canonical_single_full
    (c : N) (tl r0 : jsstring) (others : list jsstring) :
  get ROMAJI_TABLE [c] = Some (r0 :: others) -> [c] <> sokuon ->
  checkMatch (c :: tl) r0 = Some (result 1 []).
Proof.
  intros G NS.
  assert (R : romajis [c] = r0 :: others) by (unfold romajis; rewrite G; reflexivity).
  assert (Hr : In r0 (romajis [c])) by (rewrite R; left; reflexivity).
  unfold checkMatch.
  destruct (tryCompound (c :: tl) r0) as [res|] eqn:TC.
  - apply tryCompound_spec in TC.
    destruct TC as (d & tl' & rcs & rc & -> & Gt & Hrc & S & _).
    rewrite (compound_not_single c d rcs rc r0 Gt Hrc Hr) in S. discriminate.
  - cbn [orelse length Nat.leb at_ nth_error str].
    rewrite (trySokuon_other _ _ _ NS). cbn [orelse].
    unfold trySingle, matchesAnything, isComplete. rewrite R.
    rewrite (existsb_prefix (r0 :: others) r0 _ (or_introl eq_refl)
               (startsWith_refl r0)).
    rewrite (includes_true (r0 :: others) r0 (or_introl eq_refl)). reflexivity.
Qed.

Lemma canonical_compound_partial
    (c d : N) (tl r0 : jsstring) (others : list jsstring)
    (p : jsstring) (k : N) (q : jsstring) :
  get ROMAJI_TABLE [c; d] = Some (r0 :: others) ->
  r0 = p ++ k :: q -> q <> [] ->
  checkMatch (c :: d :: tl) (p ++ [k]) = Some (result 0 (p ++ [k])).
Proof.
  intros G E Hq.
  assert (P : startsWith r0 (p ++ [k]) = true).
  { apply startsWith_iff. exists q. rewrite <- app_assoc. exact E. }
  assert (NC : ~ In (p ++ [k]) (r0 :: others)).
  { intros Hin. pose proof (canonical_minimal_use _ _ _ _ G Hin P) as X.
    rewrite E in X. exact (proper_prefix_neq p k q Hq X). }
  unfold checkMatch, tryCompound. cbn [length Nat.leb firstn].
  unfold matchesAnything, isComplete, romajis. rewrite G.
  rewrite (existsb_prefix (r0 :: others) r0 _ (or_introl eq_refl) P).
  rewrite (includes_iff_false _ _ NC). reflexivity.
Qed.

Lemma canonical_compound_full
    (c d : N) (tl r0 : jsstring) (others : list jsstring) :
  get ROMAJI_TABLE [c; d] = Some (r0 :: others) ->
  checkMatch (c :: d :: tl) r0 = Some (result 2 []).
Proof.
  intros G.
  unfold checkMatch, tryCompound. cbn [length Nat.leb firstn].
  unfold matchesAnything, isComplete, romajis. rewrite G.
  rewrite (existsb_prefix (r0 :: others) r0 _ (or_introl eq_refl)
             (startsWith_refl r0)).
  rewrite (includes_true (r0 :: others) r0 (or_introl eq_refl)). reflexivity.
Qed.

End Canonical.

Section TypingUnits.

Import RomajiCore.

Lemma skipn_nth_error_none {A} (l : list A) (i : nat) :
  nth_error l i = None -> skipn i l = [].
Proof. intros H. apply skipn_all2. apply nth_error_None; exact H. Qed.

Lemma nth_error_lt {A} (l : list A) (i : nat) (x : A) :
  nth_error l i = Some x -> i < length l.
Proof. intros H. apply nth_error_Some. rewrite H; discriminate. Qed.

(** Typing the canonical spelling of the kana at the cursor, one character
    per call, from an empty buffer. *)
Lemma type_canonical_single
    (text : jsstring) (idx : nat) (c : N) (r0 : jsstring)
    (others : list jsstring) :
  nth_error text idx = Some c ->
  get ROMAJI_TABLE [c] = Some (r0 :: others) -> [c] <> sokuon ->
  inputs (mk text idx []) (chars r0) = (all_true r0, mk text (idx + 1) []).
Proof.
  intros Hc G NS.
  assert (Hr : In r0 (romajis [c]))
    by (unfold romajis; rewrite G; left; reflexivity).
  apply (type_word text idx 1 r0 (nth_error_lt _ _ _ Hc) Nat.lt_0_1).
  - intros p k q E Hq. rewrite (skipn_nth_error _ _ _ Hc).
    exact (canonical_single_partial c _ r0 others p k q G NS E Hq).
  - rewrite (skipn_nth_error _ _ _ Hc).
    exact (canonical_single_full c _ r0 others G NS).
  - reflexivity.
  - exact (romajis_nonempty _ _ Hr).
Qed.

(** Typing the canonical spelling of the two-kana key at the cursor. *)
Lemma type_canonical_compound
    (text : jsstring) (idx : nat) (c d : N) (r0 : jsstring)
    (others : list jsstring) :
  nth_error text idx = Some c -> nth_error text (S idx) = Some d ->
  get ROMAJI_TABLE [c; d] = Some (r0 :: others) ->
  inputs (mk text idx []) (chars r0) = (all_true r0, mk text (idx + 2) []).
Proof.
  intros Hc Hd G.
  assert (Hr : In r0 (romajis [c; d]))
    by (unfold romajis; rewrite G; left; reflexivity).
  apply (type_word text idx 2 r0 (nth_error_lt _ _ _ Hc) Nat.lt_0_2).
  - intros p k q E Hq.
    rewrite (skipn_nth_error _ _ _ Hc), (skipn_nth_error _ _ _ Hd).
    exact (canonical_compound_partial c d _ r0 others p k q G E Hq).
  - rewrite (skipn_nth_error _ _ _ Hc), (skipn_nth_error _ _ _ Hd).
    exact (canonical_compound_full c d _ r0 others G).
  - reflexivity.
  - exact (romajis_nonempty _ _ Hr).
Qed.

(** The explicit spelling [xtu] of a sokuon that is the last kana, or that
    is followed by a kana without table entry. *)
Lemma checkMatch_sokuon_escape (tl : jsstring) :
  match tl with
  | [] => True
  | d :: _ => romajis [d] = []
  end ->
  checkMatch (12387%N :: tl) (utf16 "x") = Some (result 0 (utf16 "x"))
  /\ checkMatch (12387%N :: tl) (utf16 "xt") = Some (result 0 (utf16 "xt"))
  /\ checkMatch (12387%N :: tl) (utf16 "xtu") = Some (result 1 []).
Proof.
  intros H.
  assert (S : forall input,
             trySingle [12387%N] input = Some (result 0 input)
             \/ trySingle [12387%N] input = Some (result 1 []) ->
             checkMatch (12387%N :: tl) input = trySingle [12387%N] input).
  { intros input Hs. unfold checkMatch.
    change (12387%N :: tl) with (sokuon ++ tl). rewrite tryCompound_sokuon.
    change (sokuon ++ tl) with (12387%N :: tl).
    cbn [orelse length Nat.leb at_ nth_error str].
    destruct tl as [|d tl'].
    - unfold trySokuon. change (streq [12387%N] sokuon) with true.
      cbn [length Nat.leb orelse].
      destruct Hs as [-> | ->]; reflexivity.
    - unfold trySokuon. change (streq [12387%N] sokuon) with true.
      cbn [length Nat.leb at_ nth_error str]. cbv zeta.
      unfold getConsonants. rewrite H. cbn [map dedupe existsb].
      unfold trySingle in *. change sokuon with [12387%N].
      destruct (matchesAnything [12387%N] input);
        [|destruct Hs; discriminate].
      destruct (isComplete [12387%N] input); reflexivity. }
  repeat split; (rewrite S; [reflexivity | auto]).
Qed.

Lemma type_sokuon_escape (text : jsstring) (idx : nat) :
  nth_error text idx = Some 12387%N ->
  match nth_error text (S idx) with
  | None => True
  | Some d => romajis [d] = []
  end ->
  inputs (mk text idx []) (chars (utf16 "xtu"))
  = (all_true (utf16 "xtu"), mk text (idx + 1) []).
Proof.
  intros Hc Hd.
  assert (E : match skipn (S idx) text with
              | [] => True
              | d :: _ => romajis [d] = []
              end).
  { destruct (nth_error text (S idx)) as [d|] eqn:N.
    - rewrite (skipn_nth_error _ _ _ N). exact Hd.
    - rewrite (skipn_nth_error_none _ _ N). exact I. }
  destruct (checkMatch_sokuon_escape _ E) as (C1 & C2 & C3).
  apply (type_word text idx 1 (utf16 "xtu") (nth_error_lt _ _ _ Hc) Nat.lt_0_1).
  - intros p k q Eq Hq. rewrite (skipn_nth_error _ _ _ Hc).
    destruct p as [|a [|b [|c p]]].
    + injection Eq as <- _. exact C1.
    + injection Eq as <- <- _. exact C2.
    + injection Eq as _ _ _ <-. exfalso; apply Hq; reflexivity.
    + destruct p; discriminate.
  - rewrite (skipn_nth_error _ _ _ Hc). exact C3.
  - reflexivity.
  - discriminate.
Qed.

End TypingUnits.

(** X6.  The hint can be typed.  When the buffer is empty and the kana at
    the cursor has a table entry (and a sokuon at the cursor is not followed
    by another sokuon), typing the characters of [getNextExpectedRomaji()]
    one per call is accepted at every call, moves the cursor by one or two
    kana, and leaves the buffer empty. *)
Theorem hint_typeable (s : RomajiCore.t) (c : N) (h : jsstring) :
  nth_error (RomajiCore.kanaText s) (RomajiCore.currentIndex s) = Some c ->
  get ROMAJI_TABLE [c] <> None ->
  (c = 12387%N ->
   nth_error (RomajiCore.kanaText s) (S (RomajiCore.currentIndex s))
   <> Some 12387%N) ->
  RomajiCore.currentInputBuffer s = [] ->
  RomajiCore.getNextExpectedRomaji s = Some h ->
  exists n,
    (n = 1 \/ n = 2)
    /\ RomajiCore.inputs s (chars h)
       = (all_true h,
          RomajiCore.mk (RomajiCore.kanaText s) (RomajiCore.currentIndex s + n) []).
Proof.
  destruct s as [text idx buf]. cbn [RomajiCore.kanaText RomajiCore.currentIndex
    RomajiCore.currentInputBuffer]. intros Hc Known NoDouble -> Hint.
  unfold RomajiCore.getNextExpectedRomaji in Hint.
  rewrite (isFinished_false (RomajiCore.mk text idx []) c Hc) in Hint.
  cbn [RomajiCore.kanaText RomajiCore.currentIndex] in Hint. cbv zeta in Hint.
  rewrite (skipn_nth_error _ _ _ Hc) in Hint.
  change RomajiCore.sokuon with [12387%N] in Hint. cbn [startsWith] in Hint.
  rewrite andb_true_r in Hint.
  destruct (N.eqb_spec c 12387%N) as [->|Nc].
  - (* the sokuon *)
    destruct (nth_error text (S idx)) as [d|] eqn:Hd.
    + rewrite (skipn_nth_error _ _ _ Hd) in Hint.
      cbn [length Nat.ltb Nat.leb at_ nth_error str] in Hint.
      unfold RomajiCore.getPossibleRomaji in Hint.
      destruct (RomajiCore.romajis [d]) as [|[|k r] others] eqn:R.
      * cbn [nth_error] in Hint. injection Hint as <-. exists 1.
        split; [left; reflexivity|].
        apply type_sokuon_escape; [exact Hc | rewrite Hd; exact R].
      * exfalso. apply (romajis_nonempty [d] []); [rewrite R; left|]; reflexivity.
      * cbn [nth_error app] in Hint. injection Hint as <-. exists 2.
        split; [right; reflexivity|].
        assert (G : get ROMAJI_TABLE [d] = Some ((k :: r) :: others)).
        { unfold RomajiCore.romajis in R.
          destruct (get ROMAJI_TABLE [d]); [rewrite R; reflexivity | discriminate]. }
        assert (Hr : In (k :: r) (RomajiCore.romajis [d])) by (rewrite R; left; reflexivity).
        assert (ND : [d] <> RomajiCore.sokuon).
        { intros [= ->]. exact (NoDouble eq_refl eq_refl). }
        unfold chars, all_true. cbn [map]. rewrite inputs_cons.
        rewrite (sokuon_first_letter_step (RomajiCore.mk text idx []) d k r
                   Hc Hd eq_refl Hr).
        cbn [fst snd RomajiCore.kanaText RomajiCore.currentIndex].
        assert (Hd' : nth_error text (idx + 1) = Some d)
          by (rewrite Nat.add_1_r; exact Hd).
        pose proof (type_canonical_single text (idx + 1) d (k :: r) others
                      Hd' G ND) as T.
        unfold chars, all_true in T. cbn [map] in T. rewrite T.
        cbn [fst snd]. replace (idx + 1 + 1) with (idx + 2) by lia.
        reflexivity.
    + rewrite (skipn_nth_error_none _ _ Hd) in Hint.
      cbn [length Nat.ltb Nat.leb] in Hint. injection Hint as <-. exists 1.
      split; [left; reflexivity|].
      apply type_sokuon_escape; [exact Hc | rewrite Hd; exact I].
  - (* a plain or contracted unit *)
    assert (NS : [c] <> RomajiCore.sokuon) by (intros [= ->]; contradiction).
    assert (Single :
              match get ROMAJI_TABLE [c] with
              | Some rs => nth_error rs 0
              | None => Some [c]
              end = Some h ->
              exists n, (n = 1 \/ n = 2)
                /\ RomajiCore.inputs (RomajiCore.mk text idx []) (chars h)
                   = (all_true h, RomajiCore.mk text (idx + n) [])).
    { destruct (get ROMAJI_TABLE [c]) as [[|r0 others]|] eqn:G;
        [discriminate | | contradiction].
      cbn [nth_error]. intros [= <-]. exists 1. split; [left; reflexivity|].
      exact (type_canonical_single text idx c r0 others Hc G NS). }
    destruct (nth_error text (S idx)) as [d|] eqn:Hd.
    + rewrite (skipn_nth_error _ _ _ Hd) in Hint.
      cbn [length Nat.leb firstn at_ nth_error str] in Hint.
      destruct (get ROMAJI_TABLE [c; d]) as [[|r0 others]|] eqn:G2.
      * discriminate.
      * cbn [nth_error] in Hint. injection Hint as <-. exists 2.
        split; [right; reflexivity|].
        exact (type_canonical_compound text idx c d r0 others Hc Hd G2).
      * apply Single. exact Hint.
    + rewrite (skipn_nth_error_none _ _ Hd) in Hint.
      cbn [length Nat.leb at_ nth_error str] in Hint.
      apply Single. exact Hint.
Qed.

Lemma hint_typeable_witness :
  RomajiCore.getNextExpectedRomaji (RomajiCore.new (utf16 "っと"))
  = Some (utf16 "tto")
  /\ exists n,
       (n = 1 \/ n = 2)
       /\ RomajiCore.inputs (RomajiCore.new (utf16 "っと")) (chars (utf16 "tto"))
          = (all_true (utf16 "tto"), RomajiCore.mk (utf16 "っと") (0 + n) []).
Proof.
  split; [reflexivity|].
  apply (hint_typeable (RomajiCore.new (utf16 "っと")) 12387%N (utf16 "tto"));
    try reflexivity.
  - vm_compute; discriminate.
  - intros _. vm_compute; discriminate.
Defined.

(** Without the condition on a doubled sokuon the hint is not always
    typeable: on っっぁ the hint is [lltu], and its third character is
    rejected. *)
Example hint_double_sokuon :
  RomajiCore.getNextExpectedRomaji (RomajiCore.new (utf16 "っっぁ"))
  = Some (utf16 "lltu")
  /\ fst (RomajiCore.inputs (RomajiCore.new (utf16 "っっぁ")) (chars (utf16 "lltu")))
     = [true; true; false; false].
Proof. split; reflexivity. Qed.

(** * Further properties of the input handler *)

Section HandlerSteps.

Import InputHandler.

Definition events (this : t) (key : jsstring) : list event :=
  snd (handleKey this key).

Lemma isCombo_next (target : jsstring) (i : nat) (c1 : option jsstring) :
  isCombo c1 (at_ target (i + 1)) = true -> i + 2 <= length target.
Proof.
  unfold isCombo, at_. destruct (nth_error target (i + 1)) eqn:E; [|discriminate].
  intros _. apply nth_error_lt in E. lia.
Qed.

(** The four ways a call of [handleKey] can end, with the callbacks it
    calls. *)
Lemma handleKey_cases (this : t) (key : jsstring) :
  ((finished this = true \/ length key <> 1)
   /\ handleKey this key = (false, this, []))
  \/ (finished this = false /\ length key = 1
      /\ handleKey this key
         = (false,
            mk (targetKana this) (currentInput this) (currentIndex this)
               (totalTyped this) (totalMisses this + 1),
            [InputUpdate false (currentInput this)]))
  \/ (finished this = false /\ length key = 1
      /\ handleKey this key
         = (true,
            mk (targetKana this) (currentInput this ++ key) (currentIndex this)
               (totalTyped this + 1) (totalMisses this),
            [InputUpdate true (currentInput this ++ key)]))
  \/ (finished this = false /\ length key = 1
      /\ exists n,
           (n = 1 \/ n = 2) /\ currentIndex this + n <= length (targetKana this)
           /\ handleKey this key
              = (true,
                 mk (targetKana this) [] (currentIndex this + n)
                    (totalTyped this + 1) (totalMisses this),
                 [KanaTyped (currentIndex this + n); InputUpdate true []]
                 ++ (if length (targetKana this) <=? currentIndex this + n
                     then [Complete] else []))).
Proof.
  unfold finished.
  destruct (length (targetKana this) <=? currentIndex this) eqn:F.
  { left. split; [left; reflexivity|]. unfold handleKey. rewrite F. reflexivity. }
  destruct (Nat.eq_dec (length key) 1) as [L|L].
  2:{ left. split; [right; exact L|]. apply handleKey_not_char; exact L. }
  right. unfold handleKey. rewrite F, L. cbn [Nat.eqb negb]. cbv zeta.
  destruct (existsb _ _); [|left; auto].
  right. destruct (find _ _) as [[|c m]|]; [left; auto | | left; auto].
  right. split; [reflexivity|]. split; [reflexivity|].
  unfold advanceChar.
  cbn [targetKana currentIndex currentInput totalTyped totalMisses].
  apply Nat.leb_gt in F.
  destruct (isCombo _ _) eqn:C.
  - apply isCombo_next in C. exists 2. repeat split; [right; reflexivity | exact C].
  - exists 1. repeat split; [left; reflexivity | lia].
Qed.

End HandlerSteps.

Section HandlerRuns.

Import InputHandler.

Lemma after_cursor (this : t) (key : jsstring) :
  targetKana (after this key) = targetKana this
  /\ currentIndex this <= currentIndex (after this key)
  /\ (currentIndex this <= length (targetKana this) ->
      currentIndex (after this key) <= length (targetKana this)).
Proof.
  unfold after.
  destruct (handleKey_cases this key)
    as [[_ E]|[(_ & _ & E)|[(_ & _ & E)|(_ & _ & n & Hn & Hl & E)]]];
    rewrite E; cbn [fst snd targetKana currentIndex]; repeat split; lia.
Qed.

Lemma handleKeys_cursor (this : t) (keys : list jsstring) :
  targetKana (snd (handleKeys this keys)) = targetKana this
  /\ currentIndex this <= currentIndex (snd (handleKeys this keys))
  /\ (currentIndex this <= length (targetKana this) ->
      currentIndex (snd (handleKeys this keys)) <= length (targetKana this)).
Proof.
  revert this; induction keys as [|k ks IH]; intros this;
    [simpl; repeat split; lia|].
  rewrite handleKeys_cons; cbn [snd].
  destruct (after_cursor this k) as (T & M & B).
  destruct (IH (after this k)) as (T' & M' & B').
  rewrite T in *. repeat split; [congruence | lia | auto].
Qed.

Lemma after_typed (this : t) (key : jsstring) :
  totalTyped (after this key)
  = totalTyped this + (if accepted this key then 1 else 0).
Proof.
  unfold after, accepted.
  destruct (handleKey_cases this key)
    as [[_ E]|[(_ & _ & E)|[(_ & _ & E)|(_ & _ & n & Hn & Hl & E)]]];
    rewrite E; cbn [fst snd totalTyped]; lia.
Qed.

End HandlerRuns.

(** X7.  Whatever strings are passed to [handleKey], the target is not
    changed and the cursor never moves backwards; after [setTarget] the
    cursor never passes the end of the target. *)
Theorem handler_cursor_monotone_bounded
    (this : InputHandler.t) (kana : jsstring) (keys : list jsstring) :
  InputHandler.currentIndex this
  <= InputHandler.currentIndex (snd (InputHandler.handleKeys this keys))
  /\ InputHandler.targetKana (snd (InputHandler.handleKeys this keys))
     = InputHandler.targetKana this
  /\ InputHandler.currentIndex
       (snd (InputHandler.handleKeys (InputHandler.setTarget this kana) keys))
     <= length kana.
Proof.
  destruct (handleKeys_cursor this keys) as (T & M & _).
  destruct (handleKeys_cursor (InputHandler.setTarget this kana) keys)
    as (_ & _ & B).
  repeat split; [exact M | exact T | apply B; simpl; lia].
Qed.

(** X8.  [totalTyped] counts exactly the calls of [handleKey] that returned
    true: after any sequence of calls, with any key strings, it has grown by
    the number of [true] among the returned values. *)
Theorem typed_counts_accepted (this : InputHandler.t) (keys : list jsstring) :
  InputHandler.totalTyped (snd (InputHandler.handleKeys this keys))
  = InputHandler.totalTyped this
    + count_occ bool_dec (fst (InputHandler.handleKeys this keys)) true.
Proof.
  revert this; induction keys as [|k ks IH]; intros this; [simpl; lia|].
  rewrite handleKeys_cons. cbn [fst snd]. rewrite IH, after_typed.
  destruct (InputHandler.accepted this k); simpl; lia.
Qed.

(** X9.  [onComplete] is called by a call of [handleKey] exactly when that
    call moves the cursor to the end of the target, and [onKanaTyped] is
    called exactly with the new position of a cursor that has advanced, the
    buffer being empty then. *)
Theorem complete_event (this : InputHandler.t) (key : jsstring) :
  (In InputHandler.Complete (events this key)
   <-> InputHandler.finished this = false
       /\ InputHandler.finished (InputHandler.after this key) = true)
  /\ (forall i,
        In (InputHandler.KanaTyped i) (events this key)
        <-> i = InputHandler.currentIndex (InputHandler.after this key)
            /\ InputHandler.currentIndex this < i)
  /\ (InputHandler.currentIndex this
      < InputHandler.currentIndex (InputHandler.after this key) ->
      InputHandler.currentInput (InputHandler.after this key) = []).
Proof.
  unfold events, InputHandler.after, InputHandler.finished.
  destruct (handleKey_cases this key)
    as [[H E]|[(F & _ & E)|[(F & _ & E)|(F & _ & n & Hn & Hl & E)]]];
    rewrite E;
    cbn [fst snd InputHandler.targetKana InputHandler.currentIndex
         InputHandler.currentInput].
  - split; [|split].
    + split; [intros [] | intros [A B]; unfold InputHandler.finished in *; congruence].
    + intros i. split; [intros [] | intros [-> ?]; lia].
    + lia.
  - unfold InputHandler.finished in F. split; [|split].
    + split; [intros [?|[]]; discriminate | intros [_ ?]; congruence].
    + intros i. split; [intros [?|[]]; discriminate | intros [-> ?]; lia].
    + lia.
  - unfold InputHandler.finished in F. split; [|split].
    + split; [intros [?|[]]; discriminate | intros [_ ?]; congruence].
    + intros i. split; [intros [?|[]]; discriminate | intros [-> ?]; lia].
    + lia.
  - unfold InputHandler.finished in F. split; [|split].
    + destruct (length (InputHandler.targetKana this)
                <=? InputHandler.currentIndex this + n); cbn [app In].
      * split; [auto | intros _; right; right; left; reflexivity].
      * split; [intros [?|[?|[]]]; discriminate | intros [_ ?]; discriminate].
    + intros i. split.
      * destruct (length (InputHandler.targetKana this)
                  <=? InputHandler.currentIndex this + n); cbn [app In].
        -- intros [[= <-]|[?|[?|[]]]]; try discriminate.
           split; [reflexivity | lia].
        -- intros [[= <-]|[?|[]]]; try discriminate.
           split; [reflexivity | lia].
      * intros [-> _]. left; reflexivity.
    + reflexivity.
Qed.

(** ** The romaji guide of the input handler *)

Module Guide.

Import InputHandler.

(** [s.charAt(0)]: the first character, or the empty string. *)
Definition charAt0 (s : jsstring) : jsstring :=
  match s with
  | [] => []
  | c :: _ => [c]
  end.

(** [xs[0] || "?"] for an array of strings. *)
Definition firstOr (xs : list jsstring) (dflt : jsstring) : jsstring :=
  match nth_error xs 0 with
  | Some (c :: r) => c :: r
  | _ => dflt
  end.

(** The loop of [getTargetRomaji()] as a function of what is left of the
    target, [rest = targetKana.substring(i)]: the text appended to [result]
    from position [i] on.  An iteration ends with [i++] (the call on the
    tail) or, for a combo, with [i += 2] (the call on the tail of the
    tail). *)
Fixpoint targetRomajiFrom (rest : jsstring) : jsstring :=
  match rest with
  | [] => []
  | c :: tl =>
    let c1 := [c] in
    let c2 := at_ tl 0 in
    if streq c1 sokuon then
      match c2 with
      | None => utf16 "xtu" ++ targetRomajiFrom tl
      | Some _ =>
        let nextCandidates := possibleRomajisFrom tl in
        let nextRomaji := firstOr nextCandidates (utf16 "?") in
        charAt0 nextRomaji ++ targetRomajiFrom tl
      end
    else if isCombo (Some c1) c2 then
      let combo := c1 ++ str c2 in
      let candidates := match get COMBO_MAP combo with
                        | Some rs => rs
                        | None => placeholder
                        end in
      str (nth_error candidates 0)
      ++ match tl with
         | [] => []
         | _ :: tl' => targetRomajiFrom tl'
         end
    else
      let candidates := match get KANA_ROMAJI_MAP c1 with
                        | Some rs => rs
                        | None => placeholder
                        end in
      str (nth_error candidates 0) ++ targetRomajiFrom tl
  end.

Definition getTargetRomaji (this : t) : jsstring :=
  targetRomajiFrom (targetKana this).

End Guide.

Example guide_sentence :
  Guide.getTargetRomaji
    (InputHandler.setTarget InputHandler.new (utf16 "いそがばまわれ"))
  = utf16 "isogabamaware".
Proof. reflexivity. Qed.

Example guide_sokuon :
  Guide.getTargetRomaji
    (InputHandler.setTarget InputHandler.new (utf16 "いっぽ"))
  = utf16 "ippo".
Proof. reflexivity. Qed.

Example guide_combo_unknown :
  Guide.getTargetRomaji
    (InputHandler.setTarget InputHandler.new (utf16 "しゅうせぇ"))
  = utf16 "shuuse?".
Proof. reflexivity. Qed.

Section GuideTyping.

Import InputHandler.

(** No spelling of the list is a proper prefix of the first one. *)
Definition minimal (rs : list jsstring) : bool :=
  match rs with
  | [] => true
  | r0 :: _ => forallb (fun r => negb (startsWith r0 r) || streq r r0) rs
  end.

(** The first spelling is minimal in every entry of [COMBO_MAP] and in every
    entry of [KANA_ROMAJI_MAP] but the one of ん (whose first spelling [nn]
    extends its spelling [n]). *)
Lemma handler_tables_minimal :
  forallb (fun kv => minimal (snd kv)) COMBO_MAP = true
  /\ forallb (fun kv => streq (fst kv) (utf16 "ん") || minimal (snd kv))
             KANA_ROMAJI_MAP = true
  /\ minimal (map utf16 ["nn"; "xn"; "n"]%string) = false.
Proof. repeat split; vm_compute; reflexivity. Qed.

Lemma minimal_use (g : jsstring) (others : list jsstring) (r : jsstring) :
  minimal (g :: others) = true -> In r (g :: others) ->
  startsWith g r = true -> r = g.
Proof.
  unfold minimal. intros M Hr S. rewrite forallb_forall in M.
  specialize (M _ Hr). rewrite S in M. apply streq_true_iff. exact M.
Qed.

Lemma handleKeys_app_full (s : t) (a b : list jsstring) :
  handleKeys s (a ++ b)
  = (fst (handleKeys s a) ++ fst (handleKeys (snd (handleKeys s a)) b),
     snd (handleKeys (snd (handleKeys s a)) b)).
Proof.
  revert s; induction a as [|k a IH]; intros s.
  - simpl. destruct (handleKeys s b); reflexivity.
  - rewrite <- app_comm_cons, !handleKeys_cons, IH. reflexivity.
Qed.

(** Typing, one character per call, a spelling accepted at the cursor of
    which no other accepted spelling is a proper prefix. *)
Lemma handler_type_word
    (target : jsstring) (idx mi adv : nat) (cands : list jsstring)
    (g : jsstring) :
  idx < length target ->
  possibleRomajisFrom (skipn idx target) = cands ->
  In g cands ->
  (forall r, In r cands -> startsWith g r = true -> r = g) ->
  adv = (if isCombo (at_ target idx) (at_ target (idx + 1)) then 2 else 1) ->
  forall rest p ty, g = p ++ rest -> rest <> [] ->
    handleKeys (mk target p idx ty mi) (chars rest)
    = (all_true rest, mk target [] (idx + adv) (ty + length rest) mi).
Proof.
  intros Hi Hc Hg Min Hadv.
  induction rest as [|k q IH]; intros p ty E Hne;
    [exfalso; apply Hne; reflexivity|].
  unfold chars, all_true. cbn [map]. rewrite handleKeys_cons.
  assert (P : startsWith g (p ++ [k]) = true).
  { apply startsWith_iff. exists q. rewrite <- app_assoc. exact E. }
  assert (V : existsb (fun r => startsWith r (p ++ [k])) cands = true).
  { apply existsb_exists. exists g. auto. }
  unfold accepted, after, handleKey.
  cbn [targetKana currentIndex currentInput totalTyped totalMisses].
  apply Nat.leb_gt in Hi. rewrite Hi. cbn [length Nat.eqb negb]. cbv zeta.
  unfold getPossibleRomajis.
  cbn [targetKana currentIndex currentInput totalTyped totalMisses].
  rewrite Hc, V.
  destruct q as [|k' q'].
  - (* the last character *)
    assert (Eg : p ++ [k] = g) by (symmetry; exact E).
    rewrite Eg.
    destruct (find (fun r => streq r g) cands) as [r|] eqn:Fd.
    + apply find_some in Fd. destruct Fd as [_ Fd].
      apply streq_true_iff in Fd. subst r.
      destruct g as [|c m]; [destruct p; discriminate|].
      unfold advanceChar.
      cbn [targetKana currentIndex currentInput totalTyped totalMisses].
      rewrite <- Hadv. cbn [fst snd handleKeys map length].
      replace (ty + 1) with (ty + 1) by reflexivity. reflexivity.
    + exfalso. pose proof (find_none _ _ Fd g Hg) as X. cbv beta in X.
      rewrite streq_refl in X. discriminate.
  - (* a proper prefix *)
    assert (Fd : find (fun r => streq r (p ++ [k])) cands = None).
    { apply find_none_intro. intros r Hr.
      destruct (streq r (p ++ [k])) eqn:S; [|reflexivity].
      apply streq_true_iff in S. subst r.
      pose proof (Min _ Hr P) as X. rewrite E in X.
      exfalso. exact (proper_prefix_neq p k (k' :: q') ltac:(discriminate) X). }
    rewrite Fd. cbn [fst snd].
    assert (E' : g = (p ++ [k]) ++ k' :: q') by (rewrite <- app_assoc; exact E).
    specialize (IH (p ++ [k]) (ty + 1) E' ltac:(discriminate)).
    unfold chars, all_true in IH. rewrite IH. cbn [fst snd length].
    f_equal. f_equal. lia.
Qed.

End GuideTyping.
